(** * GenAgent3D: the episodic memory store, reflection and the orchestration loop

    A shallow embedding of [core/memory.py] (class [SceneMemory]) and of the
    parts of [main.py] that drive it ([reflect_on_memory] and the loop of
    [main]), followed by the properties the specification states about them.

    Conventions of the embedding:
    - a Python [str] is the list of its code points, so that [ord] is the
      identity on an element;
    - a payload (what [json] can store) is a [pyval]; a [dict] is an
      association list in insertion order;
    - a Python exception is a value of [pyexn], a call that may raise returns
      a [result];
    - NumPy and FAISS numbers are rationals: the float32 rounding of the
      library is not part of the model;
    - [faiss.IndexFlatL2] is an external library, modelled in [IndexFlatL2]
      by its documented behaviour (exact search, ascending distances, label
      [-1] where there are fewer than [k] vectors, [k > 0] required). *)

From Stdlib Require Import ZArith QArith String Ascii List DecimalString.
From Stdlib Require Import Sorting.Sorted Sorting.Permutation Lia.
From stdpp Require Import base list.

Local Open Scope Z_scope.
Set Warnings "-register-all".

(** ** Python values *)

Module Py.

(** A [str]: its code points, each at most [0x10FFFF]. *)
Abbreviation pystr := (list N).

Definition max_code_point : N := 1114111%N.

Definition valid_str (s : pystr) : Prop := Forall (λ c, (c <= max_code_point)%N) s.

(** An ASCII literal of the source. *)
Definition lit (s : string) : pystr := N_of_ascii <$> list_ascii_of_string s.

Inductive pyval :=
| PNone
| PBool (b : bool)
| PInt (n : Z)
| PStr (s : pystr)
| PList (l : list pyval)
| PDict (d : list (pystr * pyval)).

Inductive pyexn :=
| KeyError (k : pystr)
| TypeError
| IndexError
| ValueError
| AssertionError.

Inductive result (A : Type) :=
| Ok (a : A)
| Raise (e : pyexn).
Arguments Ok {A} a.
Arguments Raise {A} e.

#[global] Instance result_ret : MRet result := λ A a, Ok a.
#[global] Instance result_bind : MBind result := λ A B f r,
  match r with Ok a => f a | Raise e => Raise e end.

(** [bool(v)]. *)
Definition truthy (v : pyval) : bool :=
  match v with
  | PNone => false
  | PBool b => b
  | PInt n => negb (n =? 0)
  | PStr s => negb (bool_decide (s = []))
  | PList l => match l with [] => false | _ => true end
  | PDict d => match d with [] => false | _ => true end
  end.

(** [a or b]. *)
Definition py_or (a b : pyval) : pyval := if truthy a then a else b.

Definition is_none (v : pyval) : bool :=
  match v with PNone => true | _ => false end.

(** Lookup in an association list: the first binding of the key. *)
Fixpoint assoc {V} (d : list (pystr * V)) (k : pystr) : option V :=
  match d with
  | [] => None
  | (k', v) :: rest => if bool_decide (k' = k) then Some v else assoc rest k
  end.

(** [d.get(k)] and [d.get(k, default)] on a dict. *)
Definition dict_get (d : list (pystr * pyval)) (k : pystr) (default : pyval) : pyval :=
  match assoc d k with Some v => v | None => default end.

(** [v[k]] for a string key [k]: only a dict accepts it. *)
Definition getitem_str (v : pyval) (k : pystr) : result pyval :=
  match v with
  | PDict d => match assoc d k with Some x => Ok x | None => Raise (KeyError k) end
  | _ => Raise TypeError
  end.

(** [for x in v]: the elements [v] yields, or [TypeError]. *)
Definition iterate (v : pyval) : result (list pyval) :=
  match v with
  | PList l => Ok l
  | PDict d => Ok ((λ kv, PStr kv.1) <$> d)
  | PStr s => Ok ((λ c, PStr [c]) <$> s)
  | _ => Raise TypeError
  end.

(** [v < n] for an int [n]; [bool] is a subclass of [int]. *)
Definition lt_int (v : pyval) (n : Z) : result bool :=
  match v with
  | PInt m => Ok (m <? n)
  | PBool b => Ok ((if b then 1 else 0) <? n)
  | _ => Raise TypeError
  end.

(** [l[i]] on a list, negative positions counting from the end. *)
Definition getitem {A} (l : list A) (i : Z) : result A :=
  let n := Z.of_nat (length l) in
  let j := if i <? 0 then i + n else i in
  if (j <? 0) || (n <=? j) then Raise IndexError
  else match l !! Z.to_nat j with
       | Some x => Ok x
       | None => Raise IndexError
       end.

(** [l[start:]]. *)
Definition slice_from {A} (l : list A) (start : Z) : list A :=
  let n := Z.of_nat (length l) in
  let s := if start <? 0 then Z.max (start + n) 0 else Z.min start n in
  drop (Z.to_nat s) l.

(** [sep.join(parts)]. *)
Fixpoint join (sep : pystr) (parts : list pystr) : pystr :=
  match parts with
  | [] => []
  | [p] => p
  | p :: rest => p ++ sep ++ join sep rest
  end.

(** [str(n)] for an int. *)
Definition str_of_Z (n : Z) : pystr := lit (NilZero.string_of_int (Z.to_int n)).

Definition hex_digit (n : N) : N :=
  if (n <? 10)%N then (48 + n)%N else (87 + n)%N.

(** One character inside [repr] of a str quoted with [quote]. Code points
    above 127 are kept as they are, which is what CPython does for the
    printable ones. *)
Definition repr_char (quote c : N) : pystr :=
  if (c =? 92)%N then [92; 92]%N
  else if (c =? quote)%N then [92; c]%N
  else if (c =? 9)%N then [92; 116]%N
  else if (c =? 10)%N then [92; 110]%N
  else if (c =? 13)%N then [92; 114]%N
  else if (c <? 32)%N || (c =? 127)%N
       then [92; 120; hex_digit (c / 16); hex_digit (c mod 16)]%N
  else [c].

(** [repr(s)] for a str: single quotes unless the text has a single quote
    and no double quote. *)
Definition repr_str (s : pystr) : pystr :=
  let quote := if bool_decide (39%N ∈ s) && negb (bool_decide (34%N ∈ s))
               then 34%N else 39%N in
  [quote] ++ concat (repr_char quote <$> s) ++ [quote].

(** [repr(v)]. *)
Fixpoint repr (v : pyval) : pystr :=
  match v with
  | PNone => lit "None"
  | PBool b => if b then lit "True" else lit "False"
  | PInt n => str_of_Z n
  | PStr s => repr_str s
  | PList l => lit "[" ++ join (lit ", ") (map repr l) ++ lit "]"
  | PDict d =>
      lit "{" ++
      join (lit ", ") (map (λ kv, repr_str kv.1 ++ lit ": " ++ repr kv.2) d) ++
      lit "}"
  end.

(** [str(v)], what an f-string field renders. *)
Definition str (v : pyval) : pystr :=
  match v with
  | PStr s => s
  | _ => repr v
  end.

(** Keys of a counting dict: the hashable values; [True == 1] and
    [False == 0] name the same key. *)
Definition hashable (v : pyval) : bool :=
  match v with
  | PList _ | PDict _ => false
  | _ => true
  end.

Definition key_eqb (a b : pyval) : bool :=
  match a, b with
  | PNone, PNone => true
  | PStr s, PStr t => bool_decide (s = t)
  | PInt n, PInt m => n =? m
  | PBool x, PBool y => Bool.eqb x y
  | PBool x, PInt m | PInt m, PBool x => (if x then 1 else 0) =? m
  | _, _ => false
  end.

End Py.
Import Py.

(** ** Sorting, as [sorted] and FAISS's result ordering use it *)

(** Stable insertion sort: [leb x y] says that [x] may stand before [y]. *)
Fixpoint insert_by {A} (leb : A → A → bool) (x : A) (l : list A) : list A :=
  match l with
  | [] => [x]
  | y :: rest => if leb x y then x :: y :: rest else y :: insert_by leb x rest
  end.

Definition sort_by {A} (leb : A → A → bool) (l : list A) : list A :=
  foldr (insert_by leb) [] l.

Definition Qlt_bool (x y : Q) : bool := negb (Qle_bool y x).

(** ** [faiss.IndexFlatL2]

    The index keeps the vectors it was given, in the order of insertion; the
    label of a vector is its position. *)

Module IndexFlatL2.

Abbreviation vector := (list Q).

Record t := { d : nat; xb : list vector }.

(** [faiss.IndexFlatL2(d)]. *)
Definition create (dim : nat) : t := {| d := dim; xb := [] |}.

Definition ntotal (ix : t) : nat := length (xb ix).

(** [index.add(np.array(vs))]: the array must have shape [(n, d)]. An empty
    list gives an array of shape [(0,)], whose unpacking into [n, d] raises
    [ValueError]; a row of another width fails [assert d == self.d]. *)
Definition add (ix : t) (vs : list vector) : result t :=
  match vs with
  | [] => Raise ValueError
  | _ =>
      if forallb (λ v, (length v =? d ix)%nat) vs
      then Ok {| d := d ix; xb := xb ix ++ vs |}
      else Raise AssertionError
  end.

(** Squared Euclidean distance. *)
Definition l2sqr (x y : vector) : Q :=
  foldr Qplus 0%Q (zip_with (λ a b, (a - b) * (a - b))%Q x y).

(** What a result slot holds when the index has fewer than [k] vectors:
    the largest float32 as distance, [-1] as label. *)
Definition no_distance : Q := inject_Z ((2 ^ 24 - 1) * 2 ^ 104).
Definition no_label : Z := -1.

Abbreviation hit := (Q * Z)%type.

Definition hit_leb (a b : hit) : bool := Qle_bool a.1 b.1.

(** Every stored vector with its distance to the query and its label. *)
Definition all_hits (ix : t) (q : vector) : list hit :=
  imap (λ i v, (l2sqr q v, Z.of_nat i)) (xb ix).

(** [index.search(np.array([q]), k)]: the rows [D[0]] and [I[0]]. The
    wrapper asserts [d == self.d] and [k > 0]. *)
Definition search (ix : t) (q : vector) (k : Z) : result (list Q * list Z) :=
  if negb (length q =? d ix)%nat then Raise AssertionError
  else if k <=? 0 then Raise AssertionError
  else
    let found := take (Z.to_nat k) (sort_by hit_leb (all_hits ix q)) in
    let row := found ++ replicate (Z.to_nat k - length found) (no_distance, no_label) in
    Ok (row.*1, row.*2).

End IndexFlatL2.

(** ** [core/memory.py]: class [SceneMemory] *)

(** One entry of [self.memories]: the dict with the three keys
    ["instruction"], ["scene_plan"] and ["verification_result"] that
    [add_memory] builds. *)
Record Memory := {
  instruction : pystr;
  scene_plan : pyval;
  verification_result : pyval;
}.

(** The [scene_plan] argument of [add_memory]: a payload, or an instance of a
    dataclass given by its fields, each already in the form [asdict] gives
    it. *)
Inductive plan_arg :=
| PlanValue (v : pyval)
| PlanDataclass (fields : list (pystr * pyval)).

(** [dataclasses.asdict] on such an instance. *)
Definition asdict (fields : list (pystr * pyval)) : pyval := PDict fields.

Record SceneMemory := {
  max_history : Z;
  similarity_threshold : Q;
  dimension : nat;
  index : IndexFlatL2.t;
  memories : list Memory;
}.

(** The file [data/memories.json]: absent, or the list [json.dump] wrote. *)
Definition Disk := option (list Memory).

(** The body of the loop of [_simple_embed]: [embedding[i] = ord(char) / 255.0]
    when [i < self.dimension]. *)
Definition embed_step (dimension : nat) (embedding : IndexFlatL2.vector)
    (item : nat * N) : IndexFlatL2.vector :=
  let '(i, char) := item in
  if (i <? dimension)%nat
  then <[i := Z.of_N char # 255]> embedding
  else embedding.

(** [_simple_embed]: the loop runs over [enumerate(text)], from
    [np.zeros(self.dimension)]. *)
Definition simple_embed (dimension : nat) (text : pystr) : IndexFlatL2.vector :=
  foldl (embed_step dimension)
        (replicate dimension 0%Q)
        (imap (λ i char, (i, char)) text).

(** [[self._simple_embed(m["instruction"]) for m in memories]]. *)
Definition embed_all (dimension : nat) (ms : list Memory) : list IndexFlatL2.vector :=
  (λ m, simple_embed dimension (instruction m)) <$> ms.

(** [_load_memories]. *)
Definition load_memories (disk : Disk) : list Memory :=
  match disk with
  | Some stored => stored
  | None => []
  end.

(** [__init__]. *)
Definition init (max_history : Z) (similarity_threshold : Q) (disk : Disk)
  : result SceneMemory :=
  let dimension := 100%nat in
  let index := IndexFlatL2.create dimension in
  let memories := load_memories disk in
  index ← (match memories with
           | [] => Ok index
           | _ =>
               let embeddings := embed_all dimension memories in
               IndexFlatL2.add index embeddings
           end);
  Ok {| max_history := max_history;
        similarity_threshold := similarity_threshold;
        dimension := dimension;
        index := index;
        memories := memories |}.

(** The store and the file it is saved to, as the methods that write see
    them. A call returns its result, or the exception it raised, together
    with the state it left. *)
Record World := { self : SceneMemory; disk : Disk }.

Definition M (A : Type) : Type := World → result A * World.

#[global] Instance M_ret : MRet M := λ A a w, (Ok a, w).
#[global] Instance M_bind : MBind M := λ A B f c w,
  match c w with
  | (Ok a, w') => f a w'
  | (Raise e, w') => (Raise e, w')
  end.

Definition get_self : M SceneMemory := λ w, (Ok (self w), w).
Definition put_self (s : SceneMemory) : M unit := λ w, (Ok (), {| self := s; disk := disk w |}).
Definition lift {A} (r : result A) : M A := λ w, (r, w).

Definition set_memories (ms : list Memory) : M unit :=
  s ← get_self;
  put_self {| max_history := max_history s;
              similarity_threshold := similarity_threshold s;
              dimension := dimension s;
              index := index s;
              memories := ms |}.

Definition set_index (ix : IndexFlatL2.t) : M unit :=
  s ← get_self;
  put_self {| max_history := max_history s;
              similarity_threshold := similarity_threshold s;
              dimension := dimension s;
              index := ix;
              memories := memories s |}.

(** [self.index.add(np.array(vs).astype('float32'))]. *)
Definition index_add (vs : list IndexFlatL2.vector) : M unit :=
  s ← get_self;
  ix ← lift (IndexFlatL2.add (index s) vs);
  set_index ix.

(** [_save_memories]: the whole list replaces the file's content. *)
Definition save_memories : M unit :=
  λ w, (Ok (), {| self := self w; disk := Some (memories (self w)) |}).

(** [add_memory]. *)
Definition add_memory (instruction : pystr) (scene_plan : plan_arg)
    (verification_result : pyval) : M unit :=
  let scene_plan := match scene_plan with
                    | PlanDataclass fields => asdict fields
                    | PlanValue v => v
                    end in
  let memory := {| instruction := instruction;
                   scene_plan := scene_plan;
                   verification_result := verification_result |} in
  s ← get_self;
  set_memories (memories s ++ [memory]);;
  let embedding := simple_embed (dimension s) instruction in
  index_add [embedding];;
  s ← get_self;
  (if max_history s <? Z.of_nat (length (memories s)) then
     set_memories (slice_from (memories s) (- max_history s));;
     s ← get_self;
     let embeddings := embed_all (dimension s) (memories s) in
     set_index (IndexFlatL2.create (dimension s));;
     index_add embeddings
   else mret ());;
  save_memories.

(** The loop of [search_similar] over [zip(distances[0], indices[0])]. *)
Fixpoint filter_hits (memories : list Memory) (similarity_threshold : Q)
    (pairs : list (Q * Z)) (results : list Memory) : result (list Memory) :=
  match pairs with
  | [] => Ok results
  | (dist, idx) :: rest =>
      if (idx <? Z.of_nat (length memories)) && Qlt_bool dist similarity_threshold
      then m ← getitem memories idx;
           filter_hits memories similarity_threshold rest (results ++ [m])
      else filter_hits memories similarity_threshold rest results
  end.

(** [search_similar]. *)
Definition search_similar (self : SceneMemory) (instruction : pystr) (k : Z)
  : result (list Memory) :=
  let query_embedding := simple_embed (dimension self) instruction in
  '(distances, indices) ←
    IndexFlatL2.search (index self) query_embedding
      (Z.min k (Z.of_nat (length (memories self))));
  filter_hits (memories self) (similarity_threshold self) (zip distances indices) [].

(** A counting dict, in insertion order. *)
Abbreviation counts := (list (pyval * nat)).

(** [d[key] = d.get(key, 0) + 1] once the key is known to be hashable. *)
Fixpoint bump (d : counts) (key : pyval) : counts :=
  match d with
  | [] => [(key, 1%nat)]
  | (k, n) :: rest =>
      if key_eqb k key then (k, (n + 1)%nat) :: rest else (k, n) :: bump rest key
  end.

Definition count_key (d : counts) (key : pyval) : result counts :=
  if hashable key then Ok (bump d key) else Raise TypeError.

(** [for x in items: t = x["type"]; d[t] = d.get(t, 0) + 1]. *)
Fixpoint count_types (d : counts) (items : list pyval) : result counts :=
  match items with
  | [] => Ok d
  | x :: rest =>
      t ← getitem_str x (lit "type");
      d ← count_key d t;
      count_types d rest
  end.

Record Patterns := {
  common_objects : counts;
  common_styles : counts;
  common_relationships : counts;
}.

(** The body of the loop of [analyze_patterns] for one memory. Its first
    statement subscripts the plan with ["objects"], which only a dict
    accepts, so the two later tests see a dict. *)
Definition scan_plan (acc : counts * counts * counts) (memory : Memory)
  : result (counts * counts * counts) :=
  let '(objects, styles, relationships) := acc in
  match scene_plan memory with
  | PDict plan =>
      objs ← getitem_str (PDict plan) (lit "objects");
      items ← iterate objs;
      objects ← count_types objects items;
      styles ← (match assoc plan (lit "style") with
                | Some style => count_key styles style
                | None => Ok styles
                end);
      items ← iterate (dict_get plan (lit "relationships") (PList []));
      relationships ← count_types relationships items;
      Ok (objects, styles, relationships)
  | _ => Raise TypeError
  end.

Fixpoint scan_plans (acc : counts * counts * counts) (ms : list Memory)
  : result (counts * counts * counts) :=
  match ms with
  | [] => Ok acc
  | m :: rest => acc ← scan_plan acc m; scan_plans acc rest
  end.

(** [sorted(d.items(), key=lambda x: x[1], reverse=True)]: descending counts,
    equal counts in the order of the dict. *)
Definition sort_by_freq (d : counts) : counts :=
  sort_by (λ a b, (b.2 <=? a.2)%nat) d.

(** [analyze_patterns]. *)
Definition analyze_patterns (self : SceneMemory) : result Patterns :=
  match memories self with
  | [] => Ok {| common_objects := []; common_styles := []; common_relationships := [] |}
  | _ =>
      '(objects, styles, relationships) ← scan_plans ([], [], []) (memories self);
      Ok {| common_objects := sort_by_freq objects;
            common_styles := sort_by_freq styles;
            common_relationships := sort_by_freq relationships |}
  end.

(** ** [main.py] *)

(** The three texts of [reflect_on_memory], by code point. *)
Definition score_label : pystr := [20998; 25968; 58; 32]%N.
Definition suggestion_label : pystr := [44; 32; 38382; 39064; 47; 24314; 35758; 58; 32]%N.
Definition preamble : pystr :=
  [35831; 36991; 20813; 20197; 19979; 21382; 21490; 38382; 39064; 65306; 10]%N.

(** The f-string appended to [problems]. *)
Definition problem_line (score suggestion : pyval) : pystr :=
  score_label ++ str score ++ suggestion_label ++ str suggestion.

(** The score and the suggestion [reflect_on_memory] reads in a dict. *)
Definition read_score (vr : list (pystr * pyval)) : pyval :=
  py_or (dict_get vr (lit "score") PNone) (dict_get vr (lit "overall_score") PNone).

Definition read_suggestion (vr : list (pystr * pyval)) : pyval :=
  py_or (dict_get vr (lit "suggestion") PNone) (dict_get vr (lit "suggestions") PNone).

(** The body of the loop of [reflect_on_memory] for one memory. *)
Definition reflect_one (problems : list pystr) (m : Memory) : result (list pystr) :=
  match verification_result m with
  | PDict vr =>
      let score := read_score vr in
      let suggestion := read_suggestion vr in
      if is_none score then Ok problems
      else
        below ← lt_int score 85;
        if below && truthy suggestion
        then Ok (problems ++ [problem_line score suggestion])
        else Ok problems
  | _ => Ok problems
  end.

Fixpoint reflect_all (problems : list pystr) (ms : list Memory) : result (list pystr) :=
  match ms with
  | [] => Ok problems
  | m :: rest => problems ← reflect_one problems m; reflect_all problems rest
  end.

(** [reflect_on_memory]. *)
Definition reflect_on_memory (memory : SceneMemory) : result pystr :=
  match memories memory with
  | [] => Ok []
  | _ =>
      problems ← reflect_all [] (memories memory);
      match problems with
      | [] => Ok []
      | _ => Ok (preamble ++ join [10%N] problems)
      end
  end.

(** *** The loop of [main]

    [main] talks to the user ([input]), to the planner, to the language
    model that repairs a script and to the verifier. Each of them is outside
    the program: a step of the loop consumes the answer it waits for. *)

Inductive Phase :=
| PLAN      (* waiting for [planner.plan(user_input, reflection)] *)
| EXECUTE   (* [executor.save_script(script)], then the plan is recorded *)
| REPAIR    (* waiting for the pasted error, the inner [while True] *)
| VERIFY    (* waiting for [verifier.verify(image_path, user_input)] *)
| REFLECT   (* [reflect_on_memory(memory)] *)
| DONE      (* [break]: [main] returns *)
| ABORTED (e : pyexn).

Inductive Event :=
| PlannerAnswer (reasoning script : pystr)
| ErrorPasted (error fixed : pystr)
    (* the stripped line [input] gave, and what [fix_script_with_error]
       answers when that line is not empty *)
| Verdict (score : option Z) (suggestion analysis : pystr)
| Silent.

Record Orchestrator := {
  phase : Phase;
  user_input : pystr;
  reflection : option pystr;
  reasoning : pystr;
  script : pystr;
  gen_scene : option pystr;   (* the file [save_script] writes *)
  world : World;              (* [memory] and the file it saves to *)
}.

Definition with_phase (o : Orchestrator) (p : Phase) : Orchestrator :=
  {| phase := p; user_input := user_input o; reflection := reflection o;
     reasoning := reasoning o; script := script o; gen_scene := gen_scene o;
     world := world o |}.

Definition with_world (o : Orchestrator) (w : World) : Orchestrator :=
  {| phase := phase o; user_input := user_input o; reflection := reflection o;
     reasoning := reasoning o; script := script o; gen_scene := gen_scene o;
     world := w |}.

Definition with_plan (o : Orchestrator) (r s : pystr) : Orchestrator :=
  {| phase := phase o; user_input := user_input o; reflection := reflection o;
     reasoning := r; script := s; gen_scene := gen_scene o; world := world o |}.

Definition with_reflection (o : Orchestrator) (r : pystr) : Orchestrator :=
  {| phase := phase o; user_input := user_input o; reflection := Some r;
     reasoning := reasoning o; script := script o; gen_scene := gen_scene o;
     world := world o |}.

(** [executor.save_script(script)]. *)
Definition save_script (o : Orchestrator) : Orchestrator :=
  {| phase := phase o; user_input := user_input o; reflection := reflection o;
     reasoning := reasoning o; script := script o; gen_scene := Some (script o);
     world := world o |}.

(** The optional score of the verifier as a payload. *)
Definition score_value (score : option Z) : pyval :=
  match score with Some n => PInt n | None => PNone end.

(** [memory.add_memory(...)] inside [main]: an exception ends the run. *)
Definition record (o : Orchestrator) (plan verification : pyval) (next : Phase)
  : Orchestrator :=
  match add_memory (user_input o) (PlanValue plan) verification (world o) with
  | (Ok _, w) => with_phase (with_world o w) next
  | (Raise e, w) => with_phase (with_world o w) (ABORTED e)
  end.

(** [score is not None and score >= 85]. *)
Definition accepted (score : option Z) : bool :=
  match score with Some n => 85 <=? n | None => false end.

Definition step (o : Orchestrator) (ev : Event) : option Orchestrator :=
  match phase o, ev with
  | PLAN, PlannerAnswer reasoning script =>
      Some (with_phase (with_plan o reasoning script) EXECUTE)
  | EXECUTE, Silent =>
      let o := save_script o in
      Some (record o
              (PDict [(lit "reasoning", PStr (reasoning o))])
              (PDict [(lit "script", PStr (script o))])
              REPAIR)
  | REPAIR, ErrorPasted error fixed =>
      match error with
      | [] => Some (with_phase o VERIFY)
      | _ => Some (save_script (with_plan o (reasoning o) fixed))
      end
  | VERIFY, Verdict score suggestion analysis =>
      Some (record o
              (PDict [(lit "reasoning", PStr (reasoning o))])
              (PDict [(lit "analysis", PStr analysis);
                      (lit "score", score_value score);
                      (lit "suggestion", PStr suggestion)])
              (if accepted score then DONE else REFLECT))
  | REFLECT, Silent =>
      match reflect_on_memory (self (world o)) with
      | Ok text => Some (with_phase (with_reflection o text) PLAN)
      | Raise e => Some (with_phase o (ABORTED e))
      end
  | _, _ => None
  end.

(** [main] up to its first call of the planner: the instruction is read and
    [SceneMemory()] is built with its defaults, 1000 and 0.8. *)
Definition start (instruction : pystr) (disk : Disk) : result Orchestrator :=
  memory ← init 1000 (4 # 5) disk;
  Ok {| phase := PLAN; user_input := instruction; reflection := None;
        reasoning := []; script := []; gen_scene := None;
        world := {| self := memory; disk := disk |} |}.

(** The run over the answers the loop received; an answer the current phase
    does not wait for is left unread. *)
Fixpoint run (o : Orchestrator) (evs : list Event) : Orchestrator :=
  match evs with
  | [] => o
  | ev :: rest =>
      match step o ev with
      | Some o' => run o' rest
      | None => run o rest
      end
  end.

(** ** [add] as the specification words it

    The specification lists the steps of [add] in this order: append, insert
    the embedding, persist the whole record set, and then, if the list
    exceeds [max_history], evict the oldest [count - max_history] entries
    and rebuild the index. This definition follows that wording; it is
    compared with [add_memory] below. *)
Definition add_as_specified (instruction : pystr) (scene_plan : plan_arg)
    (verification_result : pyval) : M unit :=
  let scene_plan := match scene_plan with
                    | PlanDataclass fields => asdict fields
                    | PlanValue v => v
                    end in
  let memory := {| instruction := instruction;
                   scene_plan := scene_plan;
                   verification_result := verification_result |} in
  s ← get_self;
  set_memories (memories s ++ [memory]);;
  index_add [simple_embed (dimension s) instruction];;
  save_memories;;
  s ← get_self;
  let count := Z.of_nat (length (memories s)) in
  if max_history s <? count then
    set_memories (drop (Z.to_nat (count - max_history s)) (memories s));;
    s ← get_self;
    set_index (IndexFlatL2.create (dimension s));;
    index_add (embed_all (dimension s) (memories s))
  else mret ().

(** ** Invariants and measures used by the statements *)

(** The index holds one vector per stored memory, the embedding of its
    instruction, in the order of the list. *)
Definition store_ok (s : SceneMemory) : Prop :=
  dimension s = 100%nat ∧
  IndexFlatL2.d (index s) = dimension s ∧
  IndexFlatL2.xb (index s) = embed_all (dimension s) (memories s).


(** A store built by [__init__] and grown by calls of [add_memory] that
    returned. *)
Inductive reachable : World → Prop :=
| reach_init mh thr disk s :
    init mh thr disk = Ok s →
    reachable {| self := s; disk := disk |}
| reach_add w i p v w' :
    reachable w →
    add_memory i p v w = (Ok (), w') →
    reachable w'.

(** The entry [add_memory] builds from its arguments. *)
Definition new_memory (instruction : pystr) (scene_plan : plan_arg)
    (verification_result : pyval) : Memory :=
  {| instruction := instruction;
     scene_plan := match scene_plan with
                   | PlanDataclass fields => asdict fields
                   | PlanValue v => v
                   end;
     verification_result := verification_result |}.

(** The most recent [bound] entries of a list, in their order; the whole
    list when it has no more than [bound]. *)
Definition most_recent (bound : Z) (all : list Memory) : list Memory :=
  drop (Z.to_nat (Z.of_nat (length all) - bound)) all.

(** The store [add_memory] leaves when the list it keeps is [kept]. *)
Definition store_with (s : SceneMemory) (kept : list Memory) : SceneMemory :=
  {| max_history := max_history s;
     similarity_threshold := similarity_threshold s;
     dimension := dimension s;
     index := {| IndexFlatL2.d := dimension s;
                 IndexFlatL2.xb := embed_all (dimension s) kept |};
     memories := kept |}.

(** The list [add_memory] keeps, for any bound: the slice
    [all[-max_history:]] when the list is longer than the bound. *)
Definition kept_by_add (bound : Z) (all : list Memory) : list Memory :=
  if bound <? Z.of_nat (length all) then slice_from all (- bound) else all.

(** ** Reflection as the specification words it

    A verification payload carries a numeric score when its ["score"]
    field, or else its ["overall_score"] field, is an integer; it carries a
    suggestion when its ["suggestion"] field, or else its ["suggestions"]
    field, is not empty. *)










(** ** Sample stores and runs *)

(** [SceneMemory()] as [main] builds it, over the file it finds. *)
Definition default_store (disk : Disk) : SceneMemory :=
  store_with {| max_history := 1000; similarity_threshold := 4 # 5;
                dimension := 100; index := IndexFlatL2.create 100;
                memories := [] |}
             (load_memories disk).

(** The two payloads [main] records after a plan. *)
Definition plan_payload (reasoning : string) : pyval :=
  PDict [(lit "reasoning", PStr (lit reasoning))].

Definition script_payload (script : string) : pyval :=
  PDict [(lit "script", PStr (lit script))].

(** The payload [main] records after a verification. *)
Definition verdict_payload (analysis : pystr) (score : option Z) (suggestion : pystr)
  : pyval :=
  PDict [(lit "analysis", PStr analysis);
         (lit "score", score_value score);
         (lit "suggestion", PStr suggestion)].

(** A file with two plans, for two instructions, and the store built
    over it. *)
Definition two_sofas_file : list Memory :=
  [ {| instruction := lit "red sofa in center";
       scene_plan := plan_payload "one sofa";
       verification_result := script_payload "import bpy" |};
    {| instruction := lit "red sofa in corner";
       scene_plan := plan_payload "one sofa, moved";
       verification_result := script_payload "import bpy" |} ].

Definition two_sofas : World :=
  {| self := default_store (Some two_sofas_file); disk := Some two_sofas_file |}.

(** A store with room for one attempt, holding one, and its file. *)
Definition one_slot : World :=
  let held := [ {| instruction := lit "red sofa in center";
                   scene_plan := plan_payload "one sofa";
                   verification_result := script_payload "import bpy" |} ] in
  {| self := store_with {| max_history := 1; similarity_threshold := 4 # 5;
                           dimension := 100; index := IndexFlatL2.create 100;
                           memories := [] |} held;
     disk := Some held |}.

(** The first cycle of the first end-to-end scenario of the specification:
    a plan, then a verification with score 60. *)
Definition scored_60 : SceneMemory :=
  default_store
    (Some [ {| instruction := lit "red sofa in center";
               scene_plan := plan_payload "one sofa";
               verification_result := script_payload "import bpy" |};
            {| instruction := lit "red sofa in center";
               scene_plan := plan_payload "one sofa";
               verification_result :=
                 verdict_payload (lit "the sofa is cut by the wall") (Some 60)
                                 (lit "sofa overlaps wall") |} ]).



(** [main] after the instruction was read, where no file exists. *)
Definition fresh_run (instruction : pystr) : Orchestrator :=
  {| phase := PLAN; user_input := instruction; reflection := None;
     reasoning := []; script := []; gen_scene := None;
     world := {| self := default_store None; disk := None |} |}.

(** The first cycle up to the verification: the plan is answered, saved and
    recorded, and no error is reported. *)
Definition first_cycle : list Event :=
  [ PlannerAnswer (lit "one sofa") (lit "import bpy"); Silent; ErrorPasted [] [] ].

Definition awaiting_verdict : Orchestrator :=
  run (fresh_run (lit "red sofa in center")) first_cycle.


(** ** Text operations of [str] used on the answers of the models *)

(** [s.startswith(prefix)]. *)
Fixpoint startswith (s prefix : pystr) : bool :=
  match prefix, s with
  | [], _ => true
  | p :: prefix', c :: s' => (p =? c)%N && startswith s' prefix'
  | _ :: _, [] => false
  end.

(** The text before and the text after the first occurrence of [sep], as
    [s.partition(sep)] gives them when [sep] occurs. *)
Fixpoint cut (sep s : pystr) {struct s} : option (pystr * pystr) :=
  if startswith s sep then Some ([], drop (length sep) s)
  else match s with
       | [] => None
       | c :: rest =>
           match cut sep rest with
           | Some (before, after) => Some (c :: before, after)
           | None => None
           end
       end.

(** [sep in s]. *)
Definition contains (sep s : pystr) : bool :=
  match cut sep s with Some _ => true | None => false end.

(** [s.split(sep)] for a separator that is not empty, as every separator of
    the source is: the occurrences are taken from the left, without overlap.
    Each cut removes at least one character, so the length of the text
    bounds the number of cuts. *)
Fixpoint split_pieces (cuts : nat) (sep s : pystr) : list pystr :=
  match cut sep s, cuts with
  | Some (before, after), S cuts' => before :: split_pieces cuts' sep after
  | _, _ => [s]
  end.

Definition split (sep s : pystr) : list pystr := split_pieces (length s) sep s.

(** [s.split(sep, 1)]. *)
Definition split_once (sep s : pystr) : list pystr :=
  match cut sep s with
  | Some (before, after) => [before; after]
  | None => [s]
  end.

(** [s.replace(old, new)], [old] not empty. *)
Definition replace (old new s : pystr) : pystr := join new (split old s).

(** [c.isspace()]. *)
Definition isspace (c : N) : bool :=
  ((9 <=? c) && (c <=? 13) || (28 <=? c) && (c <=? 32) ||
   (c =? 133) || (c =? 160) || (c =? 5760) ||
   (8192 <=? c) && (c <=? 8202) ||
   (c =? 8232) || (c =? 8233) || (c =? 8239) || (c =? 8287) || (c =? 12288))%N.

Fixpoint lstrip (s : pystr) : pystr :=
  match s with
  | c :: rest => if isspace c then lstrip rest else s
  | [] => []
  end.

Definition rstrip (s : pystr) : pystr := reverse (lstrip (reverse s)).

(** [s.strip()]. *)
Definition strip (s : pystr) : pystr := rstrip (lstrip s).

(** ** The answers of the models: [planner.py], [verifier.py], [main.py]

    Each of these functions sends a prompt to a language model and then
    takes the answer apart. The answer is outside the program; the
    functions below are what the source does with it. *)

Definition fence_python : pystr := lit "```python".
Definition fence : pystr := lit "```".
(** ["Blender脚本:"] and ["推理链:"]. *)
Definition script_marker : pystr := lit "Blender" ++ [33050; 26412; 58]%N.
Definition reasoning_marker : pystr := [25512; 29702; 38142; 58]%N.

(** [text.split("```python")[-1].split("```", 1)[0].strip()]. *)
Definition code_block (text : pystr) : result pystr :=
  last_part ← getitem (split fence_python text) (-1);
  body ← getitem (split_once fence last_part) 0;
  Ok (strip body).

(** [fix_script_with_error] in [main.py], from the answer [content] on. *)
Definition fix_script_with_error (content : pystr) : result pystr :=
  if contains fence_python content then code_block content
  else Ok (strip content).

(** [generate_optimized_script] in [main.py], from the answer on. *)
Definition generate_optimized_script (content : pystr) : result pystr :=
  if contains fence_python content then code_block content
  else Ok (strip content).

(** [PlannerAgent.plan], and [generate_reasoning_and_script] in [main.py]
    which has the same lines, from the answer on: the pair
    [(reasoning, script)]. *)
Definition planner_plan (content : pystr) : result (pystr * pystr) :=
  if contains script_marker content then
    let parts := split script_marker content in
    part0 ← getitem parts 0;
    let reasoning := strip (replace reasoning_marker [] part0) in
    part1 ← getitem parts 1;
    script ← (if contains fence_python part1 then code_block part1
              else Ok (strip part1));
    Ok (reasoning, script)
  else Ok ([], content).

(** The two labels the answer of the verifier is searched for,
    ["匹配度分数"] and ["优化建议"], and the class [[：: ]]. *)
Definition score_word : pystr := [21305; 37197; 24230; 20998; 25968]%N.
Definition suggestion_word : pystr := [20248; 21270; 24314; 35758]%N.

Definition is_separator (c : N) : bool := ((c =? 65306) || (c =? 58) || (c =? 32))%N.
Definition is_digit (c : N) : bool := ((48 <=? c) && (c <=? 57))%N.

Fixpoint skip_while (f : N → bool) (s : pystr) : pystr :=
  match s with
  | c :: rest => if f c then skip_while f rest else s
  | [] => []
  end.

Fixpoint take_while (f : N → bool) (s : pystr) : pystr :=
  match s with
  | c :: rest => if f c then c :: take_while f rest else []
  | [] => []
  end.

(** The first pattern of [verify]: the label, any number of separators, and
    a group of one or more ASCII digits. This is a match that starts at the
    head of [s]: its group. No separator is a digit, so the greedy run of
    separators never has to give a character back. *)
Definition score_group_here (s : pystr) : option pystr :=
  if startswith s score_word then
    match take_while is_digit (skip_while is_separator (drop (length score_word) s)) with
    | [] => None
    | digits => Some digits
    end
  else None.

(** [re.search] with the first pattern: the group of the leftmost match. *)
Fixpoint score_group (s : pystr) {struct s} : option pystr :=
  match score_group_here s with
  | Some digits => Some digits
  | None => match s with
            | [] => None
            | _ :: rest => score_group rest
            end
  end.

(** [re.search] with the second pattern of [verify]: the label, any number
    of separators, an optional newline, and a group of any characters. The
    group runs to the end of the text, so the leftmost occurrence of the
    label always matches. *)
Definition suggestion_group (s : pystr) : option pystr :=
  match cut suggestion_word s with
  | Some (_, after) =>
      match skip_while is_separator after with
      | 10%N :: rest => Some rest
      | rest => Some rest
      end
  | None => None
  end.

(** [int(digits)] for a run of ASCII digits. CPython refuses more than
    4300 digits (its default limit for the conversion). *)
Definition int_of_digits (digits : pystr) : result Z :=
  if (4300 <? length digits)%nat then Raise ValueError
  else Ok (foldl (λ acc c, 10 * acc + (Z.of_N c - 48)) 0 digits).

(** [VerifierAgent.verify], and [analyze_image_and_optimize_script] in
    [main.py] which has the same lines, from the answer [analysis] on: the
    triple [(score, suggestion, analysis)]. *)
Definition verify (analysis : pystr) : result (option Z * pystr * pystr) :=
  score ← (match score_group analysis with
           | Some digits => n ← int_of_digits digits; Ok (Some n)
           | None => Ok None
           end);
  let suggestion := match suggestion_group analysis with
                    | Some text => strip text
                    | None => []
                    end in
  Ok (score, suggestion, analysis).




(** ** Several calls of [add_memory], one after the other *)



(** ** What [main] writes to the store *)

(** The entry recorded after a plan, [main.py] lines 205 and 238. *)
Definition plan_record (instruction reasoning script : pystr) : Memory :=
  {| instruction := instruction;
     scene_plan := PDict [(lit "reasoning", PStr reasoning)];
     verification_result := PDict [(lit "script", PStr script)] |}.

(** The entry recorded after a verification, line 226. *)
Definition verdict_record (instruction reasoning analysis : pystr) (score : option Z)
    (suggestion : pystr) : Memory :=
  {| instruction := instruction;
     scene_plan := PDict [(lit "reasoning", PStr reasoning)];
     verification_result :=
       PDict [(lit "analysis", PStr analysis);
              (lit "score", score_value score);
              (lit "suggestion", PStr suggestion)] |}.

Inductive main_written : Memory → Prop :=
| written_plan i r s : main_written (plan_record i r s)
| written_verdict i r a score sug : main_written (verdict_record i r a score sug).

(** ** Totals of a counting dict and of the plans it was counted from *)

Definition total (d : counts) : nat := sum_list (d.*2).

(** How many elements a loop over [v] visits. *)
Definition visited (v : pyval) : nat :=
  match iterate v with Ok items => length items | Raise _ => 0%nat end.

Definition plan_of (m : Memory) : list (pystr * pyval) :=
  match scene_plan m with PDict plan => plan | _ => [] end.

Definition objects_listed (ms : list Memory) : nat :=
  sum_list ((λ m, visited (dict_get (plan_of m) (lit "objects") (PList []))) <$> ms).

Definition styles_listed (ms : list Memory) : nat :=
  sum_list ((λ m, match assoc (plan_of m) (lit "style") with
                  | Some _ => 1%nat
                  | None => 0%nat
                  end) <$> ms).

Definition relationships_listed (ms : list Memory) : nat :=
  sum_list ((λ m, visited (dict_get (plan_of m) (lit "relationships") (PList []))) <$> ms).

(** A store with two structured plans: a sofa and a table in a modern
    style, the table next to the sofa; and a sofa alone. *)
Definition typed (kind : string) : pyval := PDict [(lit "type", PStr (lit kind))].

Definition furnished : SceneMemory :=
  default_store
    (Some [ {| instruction := lit "sofa and table";
               scene_plan := PDict [(lit "objects", PList [typed "sofa"; typed "table"]);
                                    (lit "style", PStr (lit "modern"));
                                    (lit "relationships", PList [typed "next_to"])];
               verification_result := PDict [] |};
            {| instruction := lit "sofa";
               scene_plan := PDict [(lit "objects", PList [typed "sofa"])];
               verification_result := PDict [] |} ]).

Definition furnished_patterns : Patterns :=
  {| common_objects := [(PStr (lit "sofa"), 2%nat); (PStr (lit "table"), 1%nat)];
     common_styles := [(PStr (lit "modern"), 1%nat)];
     common_relationships := [(PStr (lit "next_to"), 1%nat)] |}.



(** * Properties *)

(** ** The embedding *)

Lemma embed_fold_lookup dim (text : pystr) : ∀ n acc j,
  length acc = dim →
  foldl (embed_step dim) acc (imap (λ i c, (n + i, c)%nat) text) !! j =
    if bool_decide (n ≤ j < n + length text ∧ j < dim)%nat
    then (λ c, Z.of_N c # 255) <$> text !! (j - n)%nat
    else acc !! j.
Proof.
  induction text as [|c text IH]; intros n acc j Hlen.
  - simpl. case_bool_decide; [lia|done].
  - rewrite imap_cons. cbn [foldl].
    erewrite imap_ext; [rewrite (IH (S n))|].
    + unfold embed_step. rewrite Nat.add_0_r. cbn [length].
      destruct (Nat.ltb_spec n dim) as [Hn|Hn].
      * destruct (decide (j = n)) as [->|Hne].
        -- rewrite bool_decide_false by lia. rewrite bool_decide_true by lia.
           rewrite Nat.sub_diag. simpl. apply list_lookup_insert_eq. lia.
        -- rewrite list_lookup_insert_ne by done.
           repeat case_bool_decide; try lia; try done.
           replace (j - n)%nat with (S (j - S n)) by lia. done.
      * repeat case_bool_decide; try lia; try done.
    + unfold embed_step. case_match; [by rewrite length_insert|done].
    + intros i x _. simpl. f_equal. lia.
Qed.

(** The loop computes the scaled code points of the first [dim] characters,
    padded with zeros. *)
Lemma simple_embed_closed dim (text : pystr) :
  simple_embed dim text =
    ((λ c, Z.of_N c # 255) <$> take dim text) ++ replicate (dim - length text) 0%Q.
Proof.
  unfold simple_embed.
  apply list_eq. intros j.
  rewrite (embed_fold_lookup dim text 0 _ j) by apply length_replicate.
  rewrite Nat.sub_0_r.
  case_bool_decide as H.
  - rewrite lookup_app_l by (rewrite length_fmap, length_take; lia).
    rewrite list_lookup_fmap, lookup_take_lt by lia. done.
  - destruct (decide (j < dim)%nat) as [Hj|Hj].
    + rewrite lookup_replicate_2 by done.
      rewrite lookup_app_r by (rewrite length_fmap, length_take; lia).
      rewrite length_fmap, length_take.
      symmetry. apply lookup_replicate. split; [done|lia].
    + rewrite !(proj2 (lookup_ge_None _ _)); [done| |].
      * rewrite length_app, length_fmap, length_take, length_replicate. lia.
      * rewrite length_replicate. lia.
Qed.

Lemma simple_embed_length dim text : length (simple_embed dim text) = dim.
Proof.
  rewrite simple_embed_closed, length_app, length_fmap, length_take, length_replicate.
  lia.
Qed.

Lemma simple_embed_lookup dim (text : pystr) i :
  (i < dim)%nat →
  simple_embed dim text !! i =
    Some (match text !! i with Some c => Z.of_N c # 255 | None => 0%Q end).
Proof.
  intros Hi. rewrite simple_embed_closed.
  destruct (text !! i) as [c|] eqn:Hc.
  - apply lookup_lt_Some in Hc as Hlt.
    rewrite lookup_app_l by (rewrite length_fmap, length_take; lia).
    by rewrite list_lookup_fmap, lookup_take_lt, Hc by lia.
  - apply lookup_ge_None in Hc.
    rewrite lookup_app_r by (rewrite length_fmap, length_take; lia).
    apply lookup_replicate. split; [done|].
    rewrite length_fmap, length_take. lia.
Qed.

Lemma simple_embed_truncates dim text :
  simple_embed dim text = simple_embed dim (take dim text).
Proof.
  rewrite !simple_embed_closed, take_take, Nat.min_id, length_take.
  do 2 f_equal. lia.
Qed.

Lemma simple_embed_bounded dim text :
  valid_str text →
  Forall (λ x, 0 <= x ∧ x <= Z.of_N max_code_point # 255)%Q (simple_embed dim text).
Proof.
  intros Hv. rewrite simple_embed_closed. apply Forall_app. split.
  - apply Forall_fmap. eapply Forall_impl; [apply Forall_take, Hv|].
    intros c Hc. unfold max_code_point in *. unfold Qle, compose. cbn [Qnum Qden]. lia.
  - apply Forall_replicate. unfold Qle. cbn. lia.
Qed.

(** ** Sorting *)

Section sort_by.
Context {A : Type} (leb : A → A → bool).

Lemma insert_by_perm x l : insert_by leb x l ≡ₚ x :: l.
Proof.
  induction l as [|y l IH]; simpl; [done|].
  destruct (leb x y); [done|].
  rewrite IH. apply perm_swap.
Qed.

Lemma sort_by_perm l : sort_by leb l ≡ₚ l.
Proof.
  induction l as [|x l IH]; simpl; [done|].
  unfold sort_by in *. simpl. by rewrite insert_by_perm, IH.
Qed.

Lemma sort_by_length l : length (sort_by leb l) = length l.
Proof. apply Permutation_length, sort_by_perm. Qed.

Hypothesis leb_total : ∀ x y, leb x y = true ∨ leb y x = true.
Hypothesis leb_trans : ∀ x y z, leb x y = true → leb y z = true → leb x z = true.

Lemma insert_by_sorted x l :
  StronglySorted (λ a b, leb a b = true) l →
  StronglySorted (λ a b, leb a b = true) (insert_by leb x l).
Proof.
  induction 1 as [|y l Hs IH Hall]; simpl.
  - repeat constructor.
  - destruct (leb x y) eqn:Hxy.
    + constructor; [by constructor|].
      constructor; [done|].
      eapply Forall_impl; [exact Hall|]. intros z Hz. by eapply leb_trans.
    + constructor; [done|].
      rewrite insert_by_perm. constructor; [|done].
      destruct (leb_total x y); congruence.
Qed.

Lemma sort_by_sorted l : StronglySorted (λ a b, leb a b = true) (sort_by leb l).
Proof.
  induction l as [|x l IH]; [constructor|].
  unfold sort_by in *. simpl. by apply insert_by_sorted.
Qed.
End sort_by.


Lemma StronglySorted_fmap {A B} (R : A → A → Prop) (S : B → B → Prop) (f : A → B) l :
  (∀ x y, R x y → S (f x) (f y)) →
  StronglySorted R l → StronglySorted S (f <$> l).
Proof.
  intros HRS. induction 1 as [|x l Hs IH Hall]; simpl; constructor; [done|].
  apply Forall_fmap. eapply Forall_impl; [exact Hall|]. intros y. apply HRS.
Qed.

(** ** The store: [__init__] and [add_memory] *)

Lemma embed_all_widths dim ms :
  forallb (λ v, (length v =? dim)%nat) (embed_all dim ms) = true.
Proof.
  apply forallb_forall. intros v Hv. unfold embed_all in Hv.
  apply list_elem_of_In, list_elem_of_fmap in Hv as (m & -> & _).
  rewrite simple_embed_length. apply Nat.eqb_refl.
Qed.

Lemma embed_all_snoc dim ms m :
  embed_all dim (ms ++ [m]) = embed_all dim ms ++ [simple_embed dim (instruction m)].
Proof. unfold embed_all. by rewrite fmap_app. Qed.

Lemma add_embeddings ix dim ms :
  IndexFlatL2.d ix = dim → ms ≠ [] →
  IndexFlatL2.add ix (embed_all dim ms) =
    Ok {| IndexFlatL2.d := dim; IndexFlatL2.xb := IndexFlatL2.xb ix ++ embed_all dim ms |}.
Proof.
  intros Hd Hne. unfold IndexFlatL2.add.
  destruct (embed_all dim ms) as [|e es] eqn:He.
  { destruct ms; [done|discriminate]. }
  by rewrite <- He, Hd, embed_all_widths.
Qed.

(** [__init__] always returns, with the parameters it was given, the list
    of the file and the index over that list. *)
Lemma init_returns mh thr disk :
  init mh thr disk =
    Ok (store_with {| max_history := mh; similarity_threshold := thr;
                      dimension := 100; index := IndexFlatL2.create 100;
                      memories := [] |} (load_memories disk)).
Proof.
  unfold init, store_with.
  destruct (load_memories disk) as [|m ms] eqn:Hl; [done|].
  cbv zeta. by rewrite add_embeddings.
Qed.

Lemma store_with_ok s kept : dimension s = 100%nat → store_ok (store_with s kept).
Proof. intros Hd. by repeat split. Qed.

Lemma most_recent_length bound all :
  0 <= bound → (Z.of_nat (length (most_recent bound all)) <= bound).
Proof. intros Hb. unfold most_recent. rewrite length_drop. lia. Qed.

Lemma most_recent_all bound all :
  Z.of_nat (length all) <= bound → most_recent bound all = all.
Proof.
  intros Hb. unfold most_recent.
  replace (Z.to_nat _) with 0%nat by lia. done.
Qed.

(** What [add_memory] does on a store whose index matches its list, for a
    retention bound of at least one. *)
Ltac run_store :=
  cbv [add_memory add_as_specified mbind M_bind get_self set_memories index_add
       set_index put_self lift save_memories mret M_ret
       self disk memories index dimension max_history similarity_threshold].

Lemma add_one_embedding ix dim text :
  IndexFlatL2.d ix = dim →
  IndexFlatL2.add ix [simple_embed dim text] =
    Ok {| IndexFlatL2.d := dim;
          IndexFlatL2.xb := IndexFlatL2.xb ix ++ [simple_embed dim text] |}.
Proof.
  intros Hd. unfold IndexFlatL2.add, forallb.
  by rewrite Hd, simple_embed_length, Nat.eqb_refl.
Qed.

Lemma add_memory_returns w i p v :
  store_ok (self w) →
  1 <= max_history (self w) →
  let kept := most_recent (max_history (self w)) (memories (self w) ++ [new_memory i p v]) in
  add_memory i p v w = (Ok (), {| self := store_with (self w) kept; disk := Some kept |}).
Proof.
  destruct w as [[mh thr dim [d xb] ms] dk].
  intros (Hdim & Hd & Hxb) Hmh kept. simpl in *. subst dim d xb.
  fold (new_memory i p v) in *.
  run_store. fold (new_memory i p v).
  rewrite (add_one_embedding _ 100) by done. run_store.
  unfold store_with. simpl.
  destruct (Z.ltb_spec mh (Z.of_nat (length (ms ++ [new_memory i p v])))) as [Hlt|Hge].
  - assert (slice_from (ms ++ [new_memory i p v]) (- mh) = kept) as ->.
    { unfold slice_from, kept, most_recent.
      destruct (Z.ltb_spec (- mh) 0); [|lia]. f_equal. lia. }
    assert (kept ≠ []) as Hne.
    { intros Hk. apply (f_equal length) in Hk. unfold kept, most_recent in Hk.
      rewrite length_drop in Hk. simpl in Hk. lia. }
    rewrite (add_embeddings _ 100) by done. done.
  - assert (kept = ms ++ [new_memory i p v]) as ->.
    { apply most_recent_all. lia. }
    by rewrite embed_all_snoc.
Qed.

(** What [add_memory] does for any retention bound: it returns unless the
    slice it keeps is empty, in which case rebuilding the index raises
    before the file is written. *)
Lemma add_memory_outcome w i p v :
  store_ok (self w) →
  let kept := kept_by_add (max_history (self w)) (memories (self w) ++ [new_memory i p v]) in
  add_memory i p v w =
    match kept with
    | [] => (Raise ValueError,
             {| self := {| max_history := max_history (self w);
                           similarity_threshold := similarity_threshold (self w);
                           dimension := dimension (self w);
                           index := IndexFlatL2.create (dimension (self w));
                           memories := [] |};
                disk := disk w |})
    | _ => (Ok (), {| self := store_with (self w) kept; disk := Some kept |})
    end.
Proof.
  destruct w as [[mh thr dim [d xb] ms] dk].
  intros (Hdim & Hd & Hxb) kept. simpl in *. subst dim d xb.
  run_store. fold (new_memory i p v).
  rewrite (add_one_embedding _ 100) by done. run_store.
  unfold store_with, kept, kept_by_add. simpl.
  destruct (Z.ltb_spec mh (Z.of_nat (length (ms ++ [new_memory i p v])))) as [Hlt|Hge].
  - destruct (slice_from (ms ++ [new_memory i p v]) (- mh)) as [|m kept'] eqn:Hk; [done|].
    rewrite (add_embeddings _ 100) by done. done.
  - rewrite embed_all_snoc.
    destruct (ms ++ [new_memory i p v]) eqn:Hall; [by destruct ms|done].
Qed.

Lemma add_memory_keeps_ok w i p v w' :
  store_ok (self w) →
  add_memory i p v w = (Ok (), w') →
  store_ok (self w') ∧ max_history (self w') = max_history (self w) ∧
  similarity_threshold (self w') = similarity_threshold (self w).
Proof.
  intros Hok. rewrite add_memory_outcome by done.
  destruct (kept_by_add _ _); [discriminate|].
  intros [= <-]. simpl. split; [|done].
  apply store_with_ok, Hok.
Qed.

Lemma reachable_store_ok w : reachable w → store_ok (self w).
Proof.
  induction 1 as [mh thr dk s Hinit|w i p v w' _ IH Hadd].
  - rewrite init_returns in Hinit. injection Hinit as <-. by apply store_with_ok.
  - by eapply add_memory_keeps_ok.
Qed.

(** ** The index and [search_similar] *)




(** The row [search] builds before it is split into [D] and [I]. *)
Lemma search_row ix q k :
  length q = IndexFlatL2.d ix → 0 < k →
  ∃ row,
    IndexFlatL2.search ix q k = Ok (row.*1, row.*2) ∧
    length row = Z.to_nat k ∧
    row = take (Z.to_nat k) (sort_by IndexFlatL2.hit_leb (IndexFlatL2.all_hits ix q)) ++
          replicate (Z.to_nat k - IndexFlatL2.ntotal ix)
                    (IndexFlatL2.no_distance, IndexFlatL2.no_label).
Proof.
  intros Hq Hk. eexists. split; [|split; [|reflexivity]].
  - unfold IndexFlatL2.search.
    rewrite Hq, Nat.eqb_refl. simpl.
    destruct (Z.leb_spec k 0); [lia|].
    rewrite length_take, sort_by_length.
    unfold IndexFlatL2.all_hits. rewrite length_imap.
    unfold IndexFlatL2.ntotal.
    replace (Z.to_nat k - Z.to_nat k `min` length (IndexFlatL2.xb ix))%nat
      with (Z.to_nat k - length (IndexFlatL2.xb ix))%nat by lia.
    done.
  - rewrite length_app, length_take, sort_by_length, length_replicate.
    unfold IndexFlatL2.all_hits, IndexFlatL2.ntotal. rewrite length_imap. lia.
Qed.

(** [search] raises exactly when one of its two assertions fails. *)
Lemma search_raises ix q k :
  length q ≠ IndexFlatL2.d ix ∨ k <= 0 →
  IndexFlatL2.search ix q k = Raise AssertionError.
Proof.
  intros H. unfold IndexFlatL2.search.
  destruct (Nat.eqb_spec (length q) (IndexFlatL2.d ix)); simpl; [|done].
  destruct (Z.leb_spec k 0); [done|]. lia.
Qed.

Lemma all_hits_elem ix q (h : IndexFlatL2.hit) :
  h ∈ IndexFlatL2.all_hits ix q →
  ∃ j v, IndexFlatL2.xb ix !! j = Some v ∧ h = (IndexFlatL2.l2sqr q v, Z.of_nat j).
Proof.
  unfold IndexFlatL2.all_hits. intros Hh.
  apply list_elem_of_lookup in Hh as [j Hj].
  rewrite list_lookup_imap in Hj.
  destruct (IndexFlatL2.xb ix !! j) as [v|] eqn:Hv; [|done].
  simpl in Hj. injection Hj as <-. eauto.
Qed.

(** Every slot of a row is a hit of the index or the filler. *)
Lemma search_row_elem ix q k (h : IndexFlatL2.hit) :
  h ∈ take (Z.to_nat k) (sort_by IndexFlatL2.hit_leb (IndexFlatL2.all_hits ix q)) ++
      replicate (Z.to_nat k - IndexFlatL2.ntotal ix)
                (IndexFlatL2.no_distance, IndexFlatL2.no_label) →
  h = (IndexFlatL2.no_distance, IndexFlatL2.no_label) ∨
  ∃ j v, IndexFlatL2.xb ix !! j = Some v ∧ h = (IndexFlatL2.l2sqr q v, Z.of_nat j).
Proof.
  rewrite elem_of_app. intros [Hh|Hh].
  - right. apply all_hits_elem.
    rewrite <- (sort_by_perm IndexFlatL2.hit_leb).
    apply elem_of_take in Hh as (i & Hi & _). by eapply list_elem_of_lookup_2.
  - left. by apply elem_of_replicate in Hh as [-> _].
Qed.

(** [memories[idx]] for a position the guard of the loop lets through. *)
Lemma getitem_guarded (mems : list Memory) idx :
  - Z.of_nat (length mems) <= idx < Z.of_nat (length mems) →
  ∃ m, getitem mems idx = Ok m ∧ m ∈ mems.
Proof.
  intros Hidx. unfold getitem.
  set (j := if idx <? 0 then idx + Z.of_nat (length mems) else idx).
  assert (0 <= j < Z.of_nat (length mems)) as Hj.
  { unfold j. destruct (Z.ltb_spec idx 0); lia. }
  destruct (Z.ltb_spec j 0); [lia|]. destruct (Z.leb_spec (Z.of_nat (length mems)) j); [lia|].
  simpl. destruct (mems !! Z.to_nat j) as [m|] eqn:Hm.
  - exists m. split; [done|]. by eapply list_elem_of_lookup_2.
  - apply lookup_ge_None in Hm. lia.
Qed.

(** The loop never reads past the end: a position at or beyond the length
    of the list is skipped, whatever the distance. *)
Lemma filter_hits_skips_past_end mems thr dist idx rest acc :
  Z.of_nat (length mems) <= idx →
  filter_hits mems thr ((dist, idx) :: rest) acc = filter_hits mems thr rest acc.
Proof.
  intros Hidx. simpl. destruct (Z.ltb_spec idx (Z.of_nat (length mems))); [lia|done].
Qed.

(** On any row whose positions are at least [-len], the loop returns, and
    with stored entries only. *)
Lemma filter_hits_stored mems thr (pairs : list (Q * Z)) : ∀ acc,
  Forall (λ p, - Z.of_nat (length mems) <= p.2) pairs →
  ∃ rs, filter_hits mems thr pairs acc = Ok (acc ++ rs) ∧ Forall (λ m, m ∈ mems) rs.
Proof.
  induction pairs as [|[dist idx] pairs IH]; intros acc Hall.
  - exists []. by rewrite app_nil_r.
  - apply Forall_cons in Hall as [Hidx Hall]. simpl in Hidx.
    cbn [filter_hits].
    destruct ((idx <? Z.of_nat (length mems)) && Qlt_bool dist thr) eqn:Hguard.
    + apply andb_true_iff in Hguard as [Hlt _]. apply Z.ltb_lt in Hlt.
      destruct (getitem_guarded mems idx) as (m & -> & Hm); [lia|].
      change (Ok m ≫= _) with (filter_hits mems thr pairs (acc ++ [m])).
      destruct (IH (acc ++ [m]) Hall) as (rs & -> & Hrs).
      exists (m :: rs). split; [by rewrite <- app_assoc|by constructor].
    + by apply IH.
Qed.







(** C8, on the code. A store built where no file exists holds no attempt,
    and [search_similar] on it raises for every instruction and every [k]:
    the index is asked for [min(k, 0)] neighbours and refuses. *)
Theorem search_similar_empty_store (mh : Z) (thr : Q) (q : pystr) (k : Z) :
  (init mh thr None ≫= λ s, Ok (length (memories s))) = Ok 0%nat ∧
  (init mh thr None ≫= λ s, search_similar s q k) = Raise AssertionError.
Proof.
  rewrite init_returns. simpl. split; [done|].
  unfold search_similar. rewrite search_raises; [done|]. right. simpl. lia.
Qed.

(** On any row at all, the loop either returns stored entries or fails on
    a position before the start of the list; it never reads past the end. *)
Lemma filter_hits_any_row mems thr (pairs : list (Q * Z)) : ∀ acc,
  Forall (λ m, m ∈ mems) acc →
  match filter_hits mems thr pairs acc with
  | Ok rs => Forall (λ m, m ∈ mems) rs
  | Raise e => e = IndexError ∧ Exists (λ p, p.2 < - Z.of_nat (length mems)) pairs
  end.
Proof.
  induction pairs as [|[dist idx] pairs IH]; intros acc Hacc; [done|].
  cbn [filter_hits].
  destruct ((idx <? Z.of_nat (length mems)) && Qlt_bool dist thr) eqn:Hguard.
  - apply andb_true_iff in Hguard as [Hlt _]. apply Z.ltb_lt in Hlt.
    destruct (decide (- Z.of_nat (length mems) <= idx)) as [Hge|Hbefore].
    + destruct (getitem_guarded mems idx) as (m & -> & Hm); [lia|].
      change (Ok m ≫= _) with (filter_hits mems thr pairs (acc ++ [m])).
      specialize (IH (acc ++ [m])).
      destruct (filter_hits mems thr pairs (acc ++ [m])).
      * apply IH, Forall_app. split; [done|by constructor].
      * destruct IH as [-> Hex]; [apply Forall_app; split; [done|by constructor]|].
        split; [done|by right].
    + assert (getitem mems idx = Raise IndexError) as ->.
      { unfold getitem. destruct (Z.ltb_spec idx 0); [|lia].
        destruct (Z.ltb_spec (idx + Z.of_nat (length mems)) 0); [done|lia]. }
      simpl. split; [done|]. left. simpl. lia.
  - specialize (IH acc Hacc).
    destruct (filter_hits mems thr pairs acc); [done|].
    destruct IH as [-> Hex]. split; [done|by right].
Qed.

(** C10. Whatever the index holds, [search_similar] either raises the
    index's own assertion or returns entries of the stored list only: a
    position at or past the end of the list is skipped by the guard, and
    indexing the list never fails. The loop itself, on any row of distances
    and positions, returns stored entries only and can fail only on a
    position before the start of the list. *)
Theorem search_similar_within_store (s : SceneMemory) (q : pystr) (k : Z) :
  match search_similar s q k with
  | Ok rs => Forall (λ m, m ∈ memories s) rs
  | Raise e => e = AssertionError
  end ∧
  ∀ row : list (Q * Z),
    match filter_hits (memories s) (similarity_threshold s) row [] with
    | Ok rs => Forall (λ m, m ∈ memories s) rs
    | Raise e =>
        e = IndexError ∧ Exists (λ p, p.2 < - Z.of_nat (length (memories s))) row
    end.
Proof.
  split; [|intros row; by apply filter_hits_any_row].
  unfold search_similar.
  set (k' := Z.min k (Z.of_nat (length (memories s)))).
  set (qe := simple_embed (dimension s) q).
  destruct (decide (length qe = IndexFlatL2.d (index s) ∧ 0 < k')) as [[Hq Hk]|Hno].
  - destruct (search_row (index s) qe k' Hq Hk) as (row & -> & _ & Hrow).
    simpl. rewrite zip_fst_snd.
    destruct (filter_hits_stored (memories s) (similarity_threshold s) row [])
      as (rs & -> & Hrs); [|done].
    apply Forall_forall. intros h Hh. rewrite Hrow in Hh.
    apply search_row_elem in Hh as [->|(j & v & _ & ->)]; simpl.
    + unfold IndexFlatL2.no_label. lia.
    + lia.
  - rewrite search_raises; [done|].
    destruct (decide (length qe = IndexFlatL2.d (index s))); [right|by left]. lia.
Qed.

(** ** Retention and persistence *)

(** For a bound of at least one, the list [add_memory] leaves is never
    longer than the bound and consists of the most recent entries. *)
Lemma add_memory_bounded w i p v :
  store_ok (self w) → 1 <= max_history (self w) →
  ∃ w', add_memory i p v w = (Ok (), w') ∧
        Z.of_nat (length (memories (self w'))) <= max_history (self w) ∧
        memories (self w') =
          most_recent (max_history (self w)) (memories (self w) ++ [new_memory i p v]).
Proof.
  intros Hok Hmh. eexists. split; [by apply add_memory_returns|].
  simpl. split; [apply most_recent_length; lia|done].
Qed.

(** C1, on the code. With [max_history = 0] the slice [memories[-0:]] is the
    whole list: nothing is evicted, and after [add_memory] returns the store
    holds one attempt more than before, above its bound of zero. *)
Theorem add_memory_zero_bound (thr : Q) (disk : Disk) (i : pystr) (p : plan_arg) (v : pyval) :
  ∃ s w',
    init 0 thr disk = Ok s ∧
    add_memory i p v {| self := s; disk := disk |} = (Ok (), w') ∧
    max_history (self w') = 0 ∧
    memories (self w') = load_memories disk ++ [new_memory i p v] ∧
    max_history (self w') < Z.of_nat (length (memories (self w'))).
Proof.
  rewrite init_returns.
  set (s := store_with _ (load_memories disk)).
  set (all := load_memories disk ++ [new_memory i p v]).
  exists s, {| self := store_with s all; disk := Some all |}.
  split; [done|]. split.
  - rewrite add_memory_outcome by (by apply store_with_ok).
    cbn [self memories store_with max_history s]. fold all.
    assert (kept_by_add 0 all = all) as ->.
    { unfold kept_by_add, slice_from. simpl.
      case_match; [|done]. by replace (Z.to_nat _) with 0%nat by lia. }
    destruct all eqn:Hall; [|done].
    by destruct (load_memories disk).
  - simpl. split; [done|]. split; [done|].
    unfold all. rewrite length_app. simpl. lia.
Qed.




(** ** Reflection *)










(** C5, on the code. A verification recorded with score zero and a
    suggestion is passed over by [reflect_on_memory]: [0 or None] is [None],
    so the guidance is the empty string and the suggestion is lost. *)
Theorem reflect_on_memory_zero_score (i analysis suggestion : pystr) (plan : pyval) :
  reflect_on_memory
    (default_store
       (Some [ {| instruction := i; scene_plan := plan;
                  verification_result := verdict_payload analysis (Some 0) suggestion |} ]))
  = Ok [].
Proof. by vm_compute. Qed.

(** ** Pattern analysis *)

Lemma sort_by_freq_descending (d : counts) :
  StronglySorted (λ a b, (b.2 ≤ a.2)%nat) (sort_by_freq d) ∧ sort_by_freq d ≡ₚ d.
Proof.
  split; [|apply sort_by_perm].
  rewrite <- (list_fmap_id (sort_by_freq d)).
  apply (StronglySorted_fmap (λ a b : pyval * nat, (b.2 <=? a.2)%nat = true)).
  - intros x y Hxy. by apply Nat.leb_le.
  - apply sort_by_sorted.
    + intros x y. rewrite !Nat.leb_le. lia.
    + intros x y z. rewrite !Nat.leb_le. lia.
Qed.

(** When [analyze_patterns] returns, its three lists are in descending
    order of count. *)
Lemma analyze_patterns_descending s r :
  analyze_patterns s = Ok r →
  StronglySorted (λ a b, (b.2 ≤ a.2)%nat) (common_objects r) ∧
  StronglySorted (λ a b, (b.2 ≤ a.2)%nat) (common_styles r) ∧
  StronglySorted (λ a b, (b.2 ≤ a.2)%nat) (common_relationships r).
Proof.
  unfold analyze_patterns. destruct (memories s) as [|m ms].
  - intros [= <-]. simpl. repeat split; constructor.
  - destruct (scan_plans _ _) as [[[objects styles] relationships]|e]; [|done].
    intros [= <-]. simpl. repeat split; apply sort_by_freq_descending.
Qed.

(** C6, on the code. The plan [main] records has no ["objects"] key, and
    [analyze_patterns] raises [KeyError] on a store that holds it; a plan
    that lacks only ["style"] and ["relationships"] is passed over without
    error. *)
Theorem analyze_patterns_without_objects (i reasoning script : pystr) :
  analyze_patterns
    (default_store
       (Some [ {| instruction := i;
                  scene_plan := PDict [(lit "reasoning", PStr reasoning)];
                  verification_result := PDict [(lit "script", PStr script)] |} ]))
  = Raise (KeyError (lit "objects")) ∧
  analyze_patterns
    (default_store
       (Some [ {| instruction := i;
                  scene_plan := PDict [(lit "objects", PList [])];
                  verification_result := PDict [(lit "script", PStr script)] |} ]))
  = Ok {| common_objects := []; common_styles := []; common_relationships := [] |}.
Proof. split; by vm_compute. Qed.

(** ** The loop of [main] *)









(** The first two end-to-end scenarios of the specification. *)
Example scenario_score_60 :
  let o := run awaiting_verdict
             [ Verdict (Some 60) (lit "sofa overlaps wall") (lit "the sofa is cut by the wall");
               Silent ] in
  phase o = PLAN ∧
  length (memories (self (world o))) = 2%nat ∧
  reflection o =
    Some (preamble ++ score_label ++ lit "60" ++ suggestion_label ++ lit "sofa overlaps wall").
Proof. by vm_compute. Qed.

Example scenario_score_90 :
  phase (run awaiting_verdict [ Verdict (Some 90) (lit "none") (lit "matches") ]) = DONE.
Proof. by vm_compute. Qed.

(** ** The embedding, as a whole *)

Lemma simple_embed_components dim (text : pystr) :
  simple_embed dim text =
    (λ i, match text !! i with Some c => Z.of_N c # 255 | None => 0%Q end) <$> seq 0 dim.
Proof.
  apply list_eq. intros j. rewrite list_lookup_fmap.
  destruct (decide (j < dim)%nat) as [Hj|Hj].
  - rewrite simple_embed_lookup by done. by rewrite lookup_seq_lt.
  - rewrite lookup_seq_ge by lia.
    apply lookup_ge_None. rewrite simple_embed_length. lia.
Qed.

Lemma reachable_dimension w : reachable w → dimension (self w) = 100%nat.
Proof. intros Hw. by apply reachable_store_ok in Hw as [? _]. Qed.

(** C9. In every store the embedding of a text is the same vector of
    exactly 100 components: component [i] is the code point of character
    [i] divided by 255, which lies between 0 and [0x10FFFF / 255]; the
    components past the end of the text are zero; the characters from
    position 100 on play no part. *)
Theorem simple_embed_fixed_dimension (w w' : World) (text : pystr) :
  reachable w → reachable w' → valid_str text →
  let e := simple_embed (dimension (self w)) text in
  simple_embed (dimension (self w')) text = e ∧
  length e = 100%nat ∧
  e = (λ i, match text !! i with Some c => Z.of_N c # 255 | None => 0%Q end) <$> seq 0 100 ∧
  e = simple_embed (dimension (self w)) (take 100 text) ∧
  Forall (λ x, 0 <= x ∧ x <= 1114111 # 255)%Q e.
Proof.
  intros Hw Hw' Hvalid.
  rewrite (reachable_dimension w Hw), (reachable_dimension w' Hw'). cbv zeta.
  split; [done|]. split; [apply simple_embed_length|].
  split; [apply simple_embed_components|].
  split; [apply simple_embed_truncates|].
  by apply simple_embed_bounded.
Qed.

Lemma simple_embed_fixed_dimension_witness :
  let w := {| self := default_store None; disk := None |} in
  let e := simple_embed (dimension (self w)) (lit "red sofa") in
  simple_embed (dimension (self one_slot)) (lit "red sofa") = e ∧
  length e = 100%nat ∧
  e = (λ i, match lit "red sofa" !! i with Some c => Z.of_N c # 255 | None => 0%Q end)
        <$> seq 0 100 ∧
  e = simple_embed (dimension (self w)) (take 100 (lit "red sofa")) ∧
  Forall (λ x, 0 <= x ∧ x <= 1114111 # 255)%Q e.
Proof.
  apply (simple_embed_fixed_dimension
           {| self := default_store None; disk := None |} one_slot (lit "red sofa")).
  - apply (reach_init 1000 (4 # 5) None). reflexivity.
  - apply (reach_init 1 (4 # 5) (disk one_slot)). reflexivity.
  - unfold valid_str. repeat constructor; vm_compute; congruence.
Defined.

(** * Further properties of the code *)

(** ** Text operations *)

Lemma startswith_spec s prefix :
  startswith s prefix = true ↔ ∃ rest, s = prefix ++ rest.
Proof.
  revert s. induction prefix as [|p prefix IH]; intros s; simpl.
  - split; [eauto|by destruct s].
  - destruct s as [|c s]; [split; [done|by intros [? ?]]|].
    simpl. rewrite andb_true_iff, N.eqb_eq, IH. split.
    + intros [-> [rest ->]]. eauto.
    + intros [rest [= -> ->]]. eauto.
Qed.

Lemma cut_app sep s before after :
  cut sep s = Some (before, after) → s = before ++ sep ++ after.
Proof.
  revert before after. induction s as [|c s IH]; intros before after; cbn [cut].
  - destruct (startswith [] sep) eqn:Hs; [|done].
    apply startswith_spec in Hs as [rest Hs]. symmetry in Hs.
    apply app_eq_nil in Hs as [-> ->]. by intros [= <- <-].
  - destruct (startswith (c :: s) sep) eqn:Hs.
    + apply startswith_spec in Hs as [rest Hs]. intros [= <- <-].
      rewrite Hs, drop_app_length. done.
    + destruct (cut sep s) as [[a b]|]; [|done].
      intros [= <- <-]. simpl. f_equal. by apply IH.
Qed.

(** No occurrence of [sep] starts before the one [cut] finds. *)
Lemma cut_first sep s before after l r :
  cut sep s = Some (before, after) → s = l ++ sep ++ r →
  (length before ≤ length l)%nat.
Proof.
  revert before after l. induction s as [|c s IH]; intros before after l; cbn [cut].
  - destruct (startswith [] sep); [|done]. intros [= <- <-] _. simpl. lia.
  - destruct (startswith (c :: s) sep) eqn:Hs; [intros [= <- <-] _; simpl; lia|].
    destruct (cut sep s) as [[a b]|] eqn:Hcut; [|done].
    intros [= <- <-] Heq. destruct l as [|c' l].
    + exfalso. apply not_true_iff_false in Hs. apply Hs.
      apply startswith_spec. exists r. done.
    + injection Heq as -> Heq. simpl. apply le_n_S. by eapply IH.
Qed.

Lemma cut_found sep l r : ∃ before after, cut sep (l ++ sep ++ r) = Some (before, after).
Proof.
  induction l as [|c l (a & b & IH)].
  - simpl. assert (startswith (sep ++ r) sep = true) as Hs
      by (apply startswith_spec; eauto).
    destruct (sep ++ r) eqn:Heq; cbn [cut]; rewrite Hs; eauto.
  - cbn [app cut]. destruct (startswith _ sep); [eauto|]. rewrite IH. eauto.
Qed.

Lemma contains_spec sep s :
  contains sep s = true ↔ ∃ l r, s = l ++ sep ++ r.
Proof.
  unfold contains. split.
  - destruct (cut sep s) as [[a b]|] eqn:Hcut; [|done].
    intros _. exists a, b. by apply cut_app.
  - intros (l & r & ->). by destruct (cut_found sep l r) as (a & b & ->).
Qed.

Lemma contains_infix sep l x r :
  contains sep (l ++ x ++ r) = false → contains sep x = false.
Proof.
  intros Hno. apply not_true_iff_false. intros Hx.
  apply not_true_iff_false in Hno. apply Hno.
  apply contains_spec in Hx as (l' & r' & ->).
  apply contains_spec. exists (l ++ l'), (r' ++ r). by rewrite <- !app_assoc.
Qed.

(** The text before the first occurrence holds none. *)
Lemma cut_before_clean sep s before after :
  sep ≠ [] → cut sep s = Some (before, after) → contains sep before = false.
Proof.
  intros Hsep Hcut. apply not_true_iff_false. intros Hin.
  apply contains_spec in Hin as (l & r & ->).
  pose proof (cut_app _ _ _ _ Hcut) as Hs.
  rewrite <- !app_assoc in Hs.
  pose proof (cut_first _ _ _ _ _ _ Hcut Hs) as Hlen.
  rewrite !length_app in Hlen. destruct sep; [done|]. simpl in Hlen. lia.
Qed.

Lemma cut_shorter sep s before after :
  sep ≠ [] → cut sep s = Some (before, after) → (length after < length s)%nat.
Proof.
  intros Hsep Hcut. rewrite (cut_app _ _ _ _ Hcut), !length_app.
  destruct sep; [done|]. simpl. lia.
Qed.

(** More cuts than the text is long change nothing. *)
Lemma split_pieces_enough sep : sep ≠ [] → ∀ n s,
  (length s ≤ n)%nat → split_pieces n sep s = split_pieces (length s) sep s.
Proof.
  intros Hsep n. induction n as [n IH] using lt_wf_ind. intros s Hn.
  destruct (cut sep s) as [[a b]|] eqn:Hcut.
  - pose proof (cut_shorter _ _ _ _ Hsep Hcut) as Hlt.
    destruct n as [|n]; [lia|]. destruct (length s) as [|m] eqn:Hm; [lia|].
    simpl. rewrite Hcut. f_equal.
    rewrite (IH n) by lia. rewrite (IH m) by lia. done.
  - destruct n, (length s); simpl; by rewrite ?Hcut.
Qed.

Lemma split_cut sep s before after :
  sep ≠ [] → cut sep s = Some (before, after) →
  split sep s = before :: split sep after.
Proof.
  intros Hsep Hcut. unfold split.
  pose proof (cut_shorter _ _ _ _ Hsep Hcut) as Hlt.
  destruct (length s) as [|m] eqn:Hm; [lia|].
  simpl. rewrite Hcut. f_equal. apply split_pieces_enough; [done|lia].
Qed.

Lemma split_no_cut sep s : cut sep s = None → split sep s = [s].
Proof. intros Hcut. unfold split. destruct (length s); simpl; by rewrite Hcut. Qed.

Lemma split_pieces_nonempty n sep s : split_pieces n sep s ≠ [].
Proof. destruct n; simpl; destruct (cut sep s) as [[? ?]|]; done. Qed.

(** Every piece of a split is a part of the text. *)
Lemma split_pieces_infix n sep : ∀ s piece,
  piece ∈ split_pieces n sep s → ∃ l r, s = l ++ piece ++ r.
Proof.
  induction n as [|n IH]; intros s piece; simpl.
  - destruct (cut sep s) as [[a b]|]; intros ->%list_elem_of_singleton;
      exists [], []; by rewrite app_nil_r.
  - destruct (cut sep s) as [[a b]|] eqn:Hcut.
    + intros [->|Hin]%elem_of_cons.
      * exists [], (sep ++ b). simpl. by apply cut_app.
      * destruct (IH _ _ Hin) as (l & r & ->).
        exists (a ++ sep ++ l), r. rewrite (cut_app _ _ _ _ Hcut).
        by rewrite <- !app_assoc.
    + intros ->%list_elem_of_singleton. exists [], []. by rewrite app_nil_r.
Qed.

Lemma getitem_last {A} (l : list A) x : last l = Some x → getitem l (-1) = Ok x.
Proof.
  intros Hlast. unfold getitem.
  assert (l ≠ []) as Hne by (by destruct l).
  assert (length l ≠ 0%nat) as Hlen by (by destruct l).
  destruct (Z.ltb_spec (-1) 0); [|lia].
  destruct (Z.ltb_spec (-1 + Z.of_nat (length l)) 0); [lia|].
  destruct (Z.leb_spec (Z.of_nat (length l)) (-1 + Z.of_nat (length l))); [lia|].
  simpl. rewrite last_lookup in Hlast.
  replace (Z.to_nat (-1 + Z.of_nat (length l))) with (pred (length l)) by lia.
  by rewrite Hlast.
Qed.

Lemma getitem_second {A} (x y : A) l : getitem (x :: y :: l) 1 = Ok y.
Proof.
  unfold getitem. cbn [length].
  destruct (Z.ltb_spec 1 0); [lia|]. destruct (Z.leb_spec (Z.of_nat (S (S (length l)))) 1); [lia|].
  done.
Qed.

Lemma lstrip_suffix s : ∃ l, s = l ++ lstrip s.
Proof.
  induction s as [|c s [l IH]]; [by exists []|]. simpl.
  destruct (isspace c); [|by exists []].
  exists (c :: l). simpl. by f_equal.
Qed.

Lemma lstrip_head s c : head (lstrip s) = Some c → isspace c = false.
Proof.
  induction s as [|c' s IH]; simpl; [done|].
  destruct (isspace c') eqn:Hc; [done|]. by intros [= <-].
Qed.

Lemma lstrip_keep s : (∀ c, head s = Some c → isspace c = false) → lstrip s = s.
Proof. destruct s as [|c s]; [done|]. simpl. intros H. by rewrite (H c). Qed.


(** [strip] keeps a part of the text, without white space at its ends, and
    is empty exactly on a text of white space. *)
Lemma strip_infix s : ∃ l r, s = l ++ strip s ++ r.
Proof.
  unfold strip, rstrip.
  destruct (lstrip_suffix s) as [l Hl].
  destruct (lstrip_suffix (reverse (lstrip s))) as [r Hr].
  exists l, (reverse r).
  rewrite <- reverse_app, <- Hr, reverse_involutive. exact Hl.
Qed.

Lemma strip_ends s :
  (∀ c, head (strip s) = Some c → isspace c = false) ∧
  (∀ c, last (strip s) = Some c → isspace c = false).
Proof.
  unfold strip, rstrip. split; intros c.
  - rewrite head_reverse.
    destruct (lstrip_suffix (reverse (lstrip s))) as [l Hl].
    destruct (lstrip (reverse (lstrip s))) as [|x t] eqn:Ht; [done|].
    intros Hlast.
    assert (last (reverse (lstrip s)) = Some c) as Hc.
    { rewrite Hl. rewrite last_app. by rewrite Hlast. }
    rewrite last_reverse in Hc. by apply lstrip_head in Hc.
  - rewrite last_reverse. apply lstrip_head.
Qed.

Lemma strip_fixed s : strip (strip s) = strip s.
Proof.
  destruct (strip_ends s) as [Hh Hl].
  unfold strip at 1, rstrip. rewrite (lstrip_keep (strip s)) by done.
  rewrite lstrip_keep; [apply reverse_involutive|].
  intros c. rewrite head_reverse. apply Hl.
Qed.


(** ** Scripts taken out of an answer *)

Lemma fence_not_empty : fence ≠ [].
Proof. intros H. vm_compute in H. discriminate. Qed.

Lemma fence_python_not_empty : fence_python ≠ [].
Proof. intros H. vm_compute in H. discriminate. Qed.

Lemma script_marker_not_empty : script_marker ≠ [].
Proof. intros H. vm_compute in H. discriminate. Qed.

(** A text without a fence has no fence that opens a Python block. *)
Lemma no_fence_no_python s : contains fence s = false → contains fence_python s = false.
Proof.
  intros Hno. apply not_true_iff_false. intros Hin.
  apply not_true_iff_false in Hno. apply Hno.
  apply contains_spec in Hin as (l & r & ->). apply contains_spec.
  exists l, (lit "python" ++ r). reflexivity.
Qed.

Lemma infix_trans (s t u : pystr) :
  (∃ l r, t = l ++ s ++ r) → (∃ l r, u = l ++ t ++ r) → ∃ l r, u = l ++ s ++ r.
Proof.
  intros (l1 & r1 & ->) (l2 & r2 & ->).
  exists (l2 ++ l1), (r1 ++ r2). by rewrite <- !app_assoc.
Qed.

(** [code_block] never fails on an index; what it returns is a part of the
    text, holds no fence and has no white space at its ends. *)
Lemma code_block_returns text :
  ∃ script, code_block text = Ok script ∧
            contains fence script = false ∧
            strip script = script ∧
            ∃ l r, text = l ++ script ++ r.
Proof.
  unfold code_block.
  destruct (last (split fence_python text)) as [last_part|] eqn:Hlast.
  2:{ apply last_None in Hlast. by apply split_pieces_nonempty in Hlast. }
  rewrite (getitem_last _ _ Hlast).
  change (Ok last_part ≫= ?f) with (f last_part). cbv beta.
  assert (∃ l r, text = l ++ last_part ++ r) as Hpart.
  { apply (split_pieces_infix (length text) fence_python).
    apply last_Some in Hlast as [front Hfront]. unfold split in Hfront.
    rewrite Hfront. apply elem_of_app. right. by left. }
  assert (∃ body, getitem (split_once fence last_part) 0 = Ok body ∧
                  contains fence body = false ∧
                  ∃ l r, last_part = l ++ body ++ r) as (body & -> & Hclean & Hbody).
  { unfold split_once. destruct (cut fence last_part) as [[a b]|] eqn:Hcut.
    - exists a. split; [done|]. split.
      + by eapply cut_before_clean; [apply fence_not_empty|].
      + exists [], (fence ++ b). exact (cut_app _ _ _ _ Hcut).
    - exists last_part. split; [done|]. split.
      + unfold contains. by rewrite Hcut.
      + exists [], []. by rewrite app_nil_r. }
  exists (strip body). split; [done|].
  destruct (strip_infix body) as (l & r & Hstrip).
  split; [|split; [apply strip_fixed|]].
  - apply (contains_infix fence l (strip body) r). by rewrite <- Hstrip.
  - eapply infix_trans; [|exact Hpart]. eapply infix_trans; [|exact Hbody]. eauto.
Qed.

(** The common part of [fix_script_with_error] and
    [generate_optimized_script]. *)
Lemma script_of_answer_returns content :
  ∃ script,
    (if contains fence_python content then code_block content
     else Ok (strip content)) = Ok script ∧
    strip script = script ∧
    contains fence_python script = false ∧
    (∃ l r, content = l ++ script ++ r) ∧
    (if contains fence_python content
     then contains fence script = false
     else script = strip content).
Proof.
  destruct (contains fence_python content) eqn:Hfence.
  - destruct (code_block_returns content) as (script & -> & Hclean & Hfixed & Hpart).
    exists script. repeat split; try done. by apply no_fence_no_python.
  - exists (strip content). split; [done|]. split; [apply strip_fixed|].
    destruct (strip_infix content) as (l & r & Hstrip).
    split; [|split; [eauto|done]].
    apply (contains_infix fence_python l (strip content) r). by rewrite <- Hstrip.
Qed.

(** X9. The script that [fix_script_with_error] and [generate_optimized_script]
    take out of the answer of the model: the call never fails, the script is
    a part of the answer without white space at its ends, and it never
    holds the opening fence of a Python block; when the answer has such a
    fence the script holds no fence at all, and otherwise it is the whole
    answer, stripped. *)
Theorem repaired_script_is_clean (content : pystr) :
  ∃ script,
    fix_script_with_error content = Ok script ∧
    generate_optimized_script content = Ok script ∧
    strip script = script ∧
    contains fence_python script = false ∧
    (∃ l r, content = l ++ script ++ r) ∧
    (if contains fence_python content
     then contains fence script = false
     else script = strip content).
Proof.
  destruct (script_of_answer_returns content) as (script & H & Hrest).
  exists script. split; [exact H|]. split; [exact H|]. exact Hrest.
Qed.


(** X10. [planner.plan] (and [generate_reasoning_and_script]) never fails on the
    answer of the model: [parts[1]] exists whenever the marker test passed.
    With the marker, reasoning and script come without white space at their
    ends and the script is a part of the answer that never holds the
    opening fence of a Python block; without the marker the whole answer is
    the script, as it is, and the reasoning is empty. *)
Theorem planner_plan_returns (content : pystr) :
  ∃ reasoning script,
    planner_plan content = Ok (reasoning, script) ∧
    (∃ l r, content = l ++ script ++ r) ∧
    (if contains script_marker content
     then strip reasoning = reasoning ∧ strip script = script ∧
          contains fence_python script = false
     else reasoning = [] ∧ script = content).
Proof.
  unfold planner_plan.
  destruct (cut script_marker content) as [[before after]|] eqn:Hcut.
  2:{ assert (contains script_marker content = false) as ->
        by (unfold contains; by rewrite Hcut).
      exists [], content. split; [done|]. split; [|done].
      exists [], []. by rewrite app_nil_r. }
  assert (contains script_marker content = true) as ->
    by (unfold contains; by rewrite Hcut).
  rewrite (split_cut _ _ _ _ script_marker_not_empty Hcut).
  change (getitem (before :: ?l) 0) with (@Ok pystr before).
  change (Ok before ≫= ?f) with (f before). cbv beta.
  assert (∃ part1, getitem (before :: split script_marker after) 1 = Ok part1 ∧
                   ∃ l r, after = l ++ part1 ++ r) as (part1 & -> & Hpart1).
  { destruct (split script_marker after) as [|part1 rest] eqn:Hsplit.
    { by apply split_pieces_nonempty in Hsplit. }
    exists part1. split; [apply getitem_second|].
    apply (split_pieces_infix (length after) script_marker).
    unfold split in Hsplit. rewrite Hsplit. by left. }
  change (Ok part1 ≫= ?f) with (f part1). cbv beta.
  destruct (script_of_answer_returns part1) as (script & -> & Hfixed & Hclean & Hpart & _).
  exists (strip (replace reasoning_marker [] before)), script.
  split; [done|]. split.
  - eapply infix_trans; [exact Hpart|]. eapply infix_trans; [exact Hpart1|].
    exists (before ++ script_marker), []. rewrite app_nil_r, <- app_assoc.
    by apply cut_app.
  - split; [apply strip_fixed|done].
Qed.

(** ** The answer of the verifier *)

Lemma take_while_digits s : Forall (λ c, is_digit c = true) (take_while is_digit s).
Proof.
  induction s as [|c s IH]; simpl; [constructor|].
  destruct (is_digit c) eqn:Hc; by constructor.
Qed.

Lemma take_while_length f s : (length (take_while f s) ≤ length s)%nat.
Proof. induction s as [|c s IH]; simpl; [lia|]. destruct (f c); simpl; lia. Qed.

Lemma skip_while_length f s : (length (skip_while f s) ≤ length s)%nat.
Proof. induction s as [|c s IH]; simpl; [lia|]. destruct (f c); simpl; lia. Qed.

Lemma digits_value_nonneg digits : ∀ acc,
  Forall (λ c, is_digit c = true) digits → 0 <= acc →
  0 <= foldl (λ acc c, 10 * acc + (Z.of_N c - 48)) acc digits.
Proof.
  induction digits as [|c digits IH]; intros acc Hall Hacc; [done|].
  apply Forall_cons in Hall as [Hc Hall]. simpl. apply IH; [done|].
  unfold is_digit in Hc. apply andb_true_iff in Hc as [Hc _].
  apply N.leb_le in Hc. lia.
Qed.

Lemma score_group_here_some s digits :
  score_group_here s = Some digits →
  startswith s score_word = true ∧
  Forall (λ c, is_digit c = true) digits ∧ (length digits ≤ length s)%nat.
Proof.
  unfold score_group_here. destruct (startswith s score_word); [|done].
  destruct (take_while is_digit _) as [|c t] eqn:Ht; [done|].
  intros [= <-]. split; [done|]. rewrite <- Ht. split; [apply take_while_digits|].
  etransitivity; [apply take_while_length|].
  etransitivity; [apply skip_while_length|]. rewrite length_drop. lia.
Qed.

Lemma score_group_some s digits :
  score_group s = Some digits →
  contains score_word s = true ∧
  Forall (λ c, is_digit c = true) digits ∧ (length digits ≤ length s)%nat.
Proof.
  induction s as [|c s IH]; cbn [score_group].
  - destruct (score_group_here []) eqn:Hh; [|done].
    apply score_group_here_some in Hh as [Hs _]. done.
  - destruct (score_group_here (c :: s)) as [d|] eqn:Hh.
    + intros [= <-]. apply score_group_here_some in Hh as (Hs & Hd & Hlen).
      split; [|done]. apply startswith_spec in Hs as [rest ->].
      apply contains_spec. by exists [], rest.
    + intros Hs. destruct (IH Hs) as (Hin & Hd & Hlen). split; [|split; [done|simpl; lia]].
      apply contains_spec in Hin as (l & r & ->). apply contains_spec.
      by exists (c :: l), r.
Qed.

Lemma suggestion_group_some s : contains suggestion_word s = false → suggestion_group s = None.
Proof.
  unfold contains, suggestion_group. by destruct (cut suggestion_word s) as [[? ?]|].
Qed.

(** X11. What [verify] (and [analyze_image_and_optimize_script]) reads in the
    answer of the verifier. It hands the answer back as it is; the
    suggestion has no white space at its ends and is empty when the answer
    lacks its label; a score is read only from an answer that holds the
    score label, and is never negative; the only failure is the refusal of
    [int] to convert a run of more than 4300 digits. *)
Theorem verify_reads (analysis : pystr) :
  match verify analysis with
  | Ok (score, suggestion, text) =>
      text = analysis ∧
      strip suggestion = suggestion ∧
      (if contains suggestion_word analysis then True else suggestion = []) ∧
      match score with
      | Some n => 0 <= n ∧ contains score_word analysis = true
      | None => True
      end
  | Raise e =>
      e = ValueError ∧ contains score_word analysis = true ∧
      (4300 < length analysis)%nat
  end.
Proof.
  unfold verify.
  assert (strip (match suggestion_group analysis with
                 | Some text => strip text
                 | None => []
                 end) =
          match suggestion_group analysis with
          | Some text => strip text
          | None => []
          end) as Hfixed.
  { destruct (suggestion_group analysis); [apply strip_fixed|done]. }
  assert (if contains suggestion_word analysis then True
          else match suggestion_group analysis with
               | Some text => strip text
               | None => []
               end = []) as Hlabel.
  { destruct (contains suggestion_word analysis) eqn:Hc; [done|].
    by rewrite suggestion_group_some. }
  destruct (score_group analysis) as [digits|] eqn:Hscore; [|done].
  apply score_group_some in Hscore as (Hin & Hdigits & Hlen).
  unfold int_of_digits. destruct (Nat.ltb_spec 4300 (length digits)); simpl.
  - split; [done|]. split; [done|lia].
  - split; [done|]. split; [done|]. split; [done|].
    split; [by apply digits_value_nonneg|done].
Qed.

(** ** The store over several calls *)

(** X1. The index of a store built by [__init__] and [add_memory] holds one
    vector per stored attempt, the embedding of its instruction, at the
    same position as the attempt in the list. *)
Theorem index_in_step_with_memories (w : World) :
  reachable w →
  IndexFlatL2.ntotal (index (self w)) = length (memories (self w)) ∧
  IndexFlatL2.d (index (self w)) = 100%nat ∧
  ∀ j m, memories (self w) !! j = Some m →
         IndexFlatL2.xb (index (self w)) !! j = Some (simple_embed 100 (instruction m)).
Proof.
  intros Hreach. apply reachable_store_ok in Hreach as (Hdim & Hd & Hxb).
  unfold IndexFlatL2.ntotal. rewrite Hxb, Hd, Hdim. unfold embed_all.
  split; [by rewrite length_fmap|]. split; [done|].
  intros j m Hm. by rewrite list_lookup_fmap, Hm.
Qed.

Lemma index_in_step_with_memories_witness :
  IndexFlatL2.ntotal (index (self two_sofas)) = length (memories (self two_sofas)) ∧
  IndexFlatL2.d (index (self two_sofas)) = 100%nat ∧
  ∀ j m, memories (self two_sofas) !! j = Some m →
         IndexFlatL2.xb (index (self two_sofas)) !! j =
           Some (simple_embed 100 (instruction m)).
Proof.
  apply (index_in_step_with_memories two_sofas).
  apply (reach_init 1000 (4 # 5) (Some two_sofas_file)). reflexivity.
Defined.








(** X4. With a negative bound, while the store holds fewer than [-max_history]
    attempts the slice [memories[-max_history:]] is empty: [add_memory]
    raises [ValueError] when it rebuilds the index, leaves the stored list
    empty and does not write the file. *)
Theorem add_memory_negative_bound (w : World) (i : pystr) (p : plan_arg) (v : pyval) :
  reachable w →
  Z.of_nat (length (memories (self w))) < - max_history (self w) →
  ∃ w',
    add_memory i p v w = (Raise ValueError, w') ∧
    memories (self w') = [] ∧
    IndexFlatL2.ntotal (index (self w')) = 0%nat ∧
    disk w' = disk w.
Proof.
  intros Hreach Hlen. apply reachable_store_ok in Hreach.
  rewrite add_memory_outcome by done.
  assert (kept_by_add (max_history (self w)) (memories (self w) ++ [new_memory i p v]) = [])
    as ->.
  { unfold kept_by_add, slice_from. rewrite length_app. simpl.
    destruct (Z.ltb_spec (max_history (self w))
                (Z.of_nat (length (memories (self w)) + 1))); [|lia].
    destruct (Z.ltb_spec (- max_history (self w)) 0); [lia|].
    apply drop_ge. rewrite length_app. simpl. lia. }
  eexists. split; [reflexivity|]. done.
Qed.

Lemma add_memory_negative_bound_witness :
  ∃ w',
    add_memory (lit "red sofa") (PlanValue (plan_payload "one sofa"))
      (script_payload "import bpy")
      {| self := store_with {| max_history := -2; similarity_threshold := 4 # 5;
                               dimension := 100; index := IndexFlatL2.create 100;
                               memories := [] |} [];
         disk := None |} = (Raise ValueError, w') ∧
    memories (self w') = [] ∧
    IndexFlatL2.ntotal (index (self w')) = 0%nat ∧
    disk w' = None.
Proof.
  apply (add_memory_negative_bound
           {| self := store_with {| max_history := -2; similarity_threshold := 4 # 5;
                                    dimension := 100; index := IndexFlatL2.create 100;
                                    memories := [] |} [];
              disk := None |}).
  - apply (reach_init (-2) (4 # 5) None). reflexivity.
  - simpl. lia.
Defined.

(** ** Looking up an instruction that is stored *)

Lemma square_nonneg (a : Q) : (0 <= a * a)%Q.
Proof. unfold Qle, Qmult. simpl. nia. Qed.

Lemma l2sqr_nonneg x y : (0 <= IndexFlatL2.l2sqr x y)%Q.
Proof.
  unfold IndexFlatL2.l2sqr. revert y.
  induction x as [|a x IH]; intros [|b y]; simpl; try apply Qle_refl.
  exact (Qplus_le_compat 0 _ 0 _ (square_nonneg _) (IH _)).
Qed.

Lemma l2sqr_self x : (IndexFlatL2.l2sqr x x == 0)%Q.
Proof.
  unfold IndexFlatL2.l2sqr. induction x as [|a x IH]; simpl; [reflexivity|].
  rewrite IH. ring.
Qed.




(** ** Counting in [analyze_patterns] *)

Lemma total_cons k n d : total ((k, n) :: d) = (n + total d)%nat.
Proof. reflexivity. Qed.

Lemma bump_total d key : total (bump d key) = S (total d).
Proof.
  induction d as [|[k n] d IH]; cbn [bump]; [done|].
  destruct (key_eqb k key); rewrite !total_cons; [lia|]. rewrite IH. lia.
Qed.

Lemma count_key_total d key d' : count_key d key = Ok d' → total d' = S (total d).
Proof.
  unfold count_key. destruct (hashable key); [|done].
  intros [= <-]. apply bump_total.
Qed.

Lemma count_types_total items : ∀ d d',
  count_types d items = Ok d' → total d' = (total d + length items)%nat.
Proof.
  induction items as [|x items IH]; intros d d'; simpl.
  - intros [= <-]. lia.
  - destruct (getitem_str x (lit "type")) as [t|]; [|done]. simpl.
    destruct (count_key d t) as [d1|] eqn:Hk; [|done]. simpl.
    intros Hrest. apply IH in Hrest. apply count_key_total in Hk. lia.
Qed.

Lemma listed_one m :
  objects_listed [m] = visited (dict_get (plan_of m) (lit "objects") (PList [])) ∧
  styles_listed [m] = match assoc (plan_of m) (lit "style") with
                      | Some _ => 1%nat
                      | None => 0%nat
                      end ∧
  relationships_listed [m] =
    visited (dict_get (plan_of m) (lit "relationships") (PList [])).
Proof.
  unfold objects_listed, styles_listed, relationships_listed. simpl. lia.
Qed.

Lemma scan_plan_total objects styles relationships m objects' styles' relationships' :
  scan_plan (objects, styles, relationships) m = Ok (objects', styles', relationships') →
  total objects' = (total objects + objects_listed [m])%nat ∧
  total styles' = (total styles + styles_listed [m])%nat ∧
  total relationships' = (total relationships + relationships_listed [m])%nat.
Proof.
  destruct (listed_one m) as (-> & -> & ->).
  unfold scan_plan, plan_of, visited.
  destruct (scene_plan m) as [| | | | |plan]; try done.
  unfold getitem_str, dict_get.
  destruct (assoc plan (lit "objects")) as [objs|]; [|done].
  change (Ok objs ≫= ?f) with (f objs). cbv beta.
  destruct (iterate objs) as [items|]; [|done].
  change (Ok items ≫= ?f) with (f items). cbv beta.
  destruct (count_types objects items) as [o1|] eqn:Ho; [|done].
  change (Ok o1 ≫= ?f) with (f o1). cbv beta.
  apply count_types_total in Ho.
  assert (∃ s1, (match assoc plan (lit "style") with
                 | Some style => count_key styles style
                 | None => Ok styles
                 end = s1) ∧
                ∀ s2, s1 = Ok s2 →
                  total s2 = (total styles +
                              match assoc plan (lit "style") with
                              | Some _ => 1 | None => 0 end)%nat)
    as (s1 & -> & Hs1).
  { eexists. split; [reflexivity|]. intros s2.
    destruct (assoc plan (lit "style")) as [style|].
    - intros Hk%count_key_total. lia.
    - intros [= <-]. lia. }
  destruct s1 as [s2|]; [|done]. specialize (Hs1 s2 eq_refl).
  change (Ok s2 ≫= ?f) with (f s2). cbv beta.
  destruct (iterate _) as [rels|]; [|done].
  change (Ok rels ≫= ?f) with (f rels). cbv beta.
  destruct (count_types relationships rels) as [r1|] eqn:Hr; [|done].
  apply count_types_total in Hr.
  intros [= <- <- <-]. done.
Qed.

Lemma listed_cons m ms :
  objects_listed (m :: ms) = (objects_listed [m] + objects_listed ms)%nat ∧
  styles_listed (m :: ms) = (styles_listed [m] + styles_listed ms)%nat ∧
  relationships_listed (m :: ms) = (relationships_listed [m] + relationships_listed ms)%nat.
Proof.
  unfold objects_listed, styles_listed, relationships_listed.
  change (m :: ms) with ([m] ++ ms). by rewrite !fmap_app, !sum_list_with_app.
Qed.

Lemma scan_plans_total ms : ∀ objects styles relationships objects' styles' relationships',
  scan_plans (objects, styles, relationships) ms = Ok (objects', styles', relationships') →
  total objects' = (total objects + objects_listed ms)%nat ∧
  total styles' = (total styles + styles_listed ms)%nat ∧
  total relationships' = (total relationships + relationships_listed ms)%nat.
Proof.
  induction ms as [|m ms IH]; intros o s r o' s' r'.
  - intros [= <- <- <-]. unfold objects_listed, styles_listed, relationships_listed.
    simpl. lia.
  - cbn [scan_plans].
    destruct (scan_plan (o, s, r) m) as [[[o1 s1] r1]|] eqn:Hm; [|done].
    change (Ok ?x ≫= ?f) with (f x). cbv beta.
    intros Hrest. apply IH in Hrest. apply scan_plan_total in Hm.
    destruct (listed_cons m ms) as (-> & -> & ->). lia.
Qed.

Lemma sort_by_freq_total d : total (sort_by_freq d) = total d.
Proof.
  unfold total. by rewrite (proj2 (sort_by_freq_descending d)).
Qed.

(** X7. When [analyze_patterns] returns, each of its three lists is in
    descending order of count, and its counts add up to what the loop
    visited: the elements of every ["objects"] value, one for every plan
    with a ["style"] key, and the elements of every ["relationships"]
    value. *)
Theorem analyze_patterns_counts (s : SceneMemory) (r : Patterns) :
  analyze_patterns s = Ok r →
  StronglySorted (λ a b, (b.2 ≤ a.2)%nat) (common_objects r) ∧
  StronglySorted (λ a b, (b.2 ≤ a.2)%nat) (common_styles r) ∧
  StronglySorted (λ a b, (b.2 ≤ a.2)%nat) (common_relationships r) ∧
  total (common_objects r) = objects_listed (memories s) ∧
  total (common_styles r) = styles_listed (memories s) ∧
  total (common_relationships r) = relationships_listed (memories s).
Proof.
  intros Hr. destruct (analyze_patterns_descending s r Hr) as (H1 & H2 & H3).
  split; [done|]. split; [done|]. split; [done|].
  unfold analyze_patterns in Hr. destruct (memories s) as [|m ms] eqn:Hms.
  { injection Hr as <-. done. }
  destruct (scan_plans _ (m :: ms)) as [[[o st] rl]|] eqn:Hscan; [|done].
  injection Hr as <-. simpl. rewrite !sort_by_freq_total.
  apply scan_plans_total in Hscan. unfold total in Hscan at 2 4 6. simpl in Hscan. lia.
Qed.

Lemma analyze_patterns_counts_witness :
  StronglySorted (λ a b, (b.2 ≤ a.2)%nat) (common_objects furnished_patterns) ∧
  StronglySorted (λ a b, (b.2 ≤ a.2)%nat) (common_styles furnished_patterns) ∧
  StronglySorted (λ a b, (b.2 ≤ a.2)%nat) (common_relationships furnished_patterns) ∧
  total (common_objects furnished_patterns) = objects_listed (memories furnished) ∧
  total (common_styles furnished_patterns) = styles_listed (memories furnished) ∧
  total (common_relationships furnished_patterns) = relationships_listed (memories furnished).
Proof. apply (analyze_patterns_counts furnished furnished_patterns). reflexivity. Defined.

(** ** The store as [main] fills it *)








(** X8. [analyze_patterns] fails on every store that [main] has written to: no
    entry [main] records has an ["objects"] key in its plan. *)
Theorem analyze_patterns_fails_after_main (s : SceneMemory) :
  Forall main_written (memories s) → memories s ≠ [] →
  analyze_patterns s = Raise (KeyError (lit "objects")).
Proof.
  intros Hall Hne. unfold analyze_patterns.
  destruct (memories s) as [|m ms]; [done|].
  apply Forall_cons in Hall as [Hm _]. by destruct Hm.
Qed.

Lemma analyze_patterns_fails_after_main_witness :
  analyze_patterns scored_60 = Raise (KeyError (lit "objects")).
Proof.
  apply (analyze_patterns_fails_after_main scored_60).
  - repeat constructor.
  - discriminate.
Defined.

(** ** The loop of [main] over the store it fills *)













(** ** The repair loop *)






(** ** A verdict that cannot be read *)






(** ** Which texts are at distance zero *)

Lemma sum_zero (p r : Q) : (0 <= p → 0 <= r → p + r == 0 → p == 0 ∧ r == 0)%Q.
Proof.
  intros Hp Hr Hsum. split; apply Qle_antisym; try done.
  - rewrite <- Hsum. rewrite <- (Qplus_0_r p) at 1. by apply Qplus_le_r.
  - rewrite <- Hsum. rewrite <- (Qplus_0_l r) at 1. by apply Qplus_le_l.
Qed.

Lemma square_zero (a b : Q) : ((a - b) * (a - b) == 0 → a == b)%Q.
Proof.
  intros H. apply Qmult_integral in H.
  assert (a - b == 0)%Q as Hd by (by destruct H).
  rewrite <- (Qplus_0_l b), <- Hd. ring.
Qed.

Lemma l2sqr_zero x : ∀ y,
  length x = length y → (IndexFlatL2.l2sqr x y == 0)%Q → Forall2 Qeq x y.
Proof.
  unfold IndexFlatL2.l2sqr.
  induction x as [|a x IH]; intros [|b y] Hlen; try done.
  simpl. intros Hsum.
  destruct (sum_zero _ _ (square_nonneg (a - b)) (l2sqr_nonneg x y) Hsum) as [Ha Hrest].
  constructor; [by apply square_zero|]. apply IH; [by injection Hlen|done].
Qed.

Lemma same_component (a b : pystr) i :
  Forall (λ c, c ≠ 0%N) a → Forall (λ c, c ≠ 0%N) b →
  (match a !! i with Some c => Z.of_N c # 255 | None => 0 end ==
   match b !! i with Some c => Z.of_N c # 255 | None => 0 end)%Q →
  a !! i = b !! i.
Proof.
  intros Ha Hb.
  destruct (a !! i) as [c|] eqn:Hc, (b !! i) as [c'|] eqn:Hc'; unfold Qeq; simpl.
  - intros H. f_equal. lia.
  - intros H. eapply Forall_lookup_1 in Ha; [|exact Hc]. simpl in Ha. lia.
  - intros H. eapply Forall_lookup_1 in Hb; [|exact Hc']. simpl in Hb. lia.
  - done.
Qed.

(** X6. For texts without the character of code zero, the embeddings of two
    texts are at squared distance zero exactly when the texts agree on
    their first 100 characters: a shorter text, a longer one that differs
    before position 100, or another character anywhere in that range gives
    a positive distance. *)
Theorem zero_distance_same_start (a b : pystr) :
  Forall (λ c, c ≠ 0%N) a → Forall (λ c, c ≠ 0%N) b →
  (IndexFlatL2.l2sqr (simple_embed 100 a) (simple_embed 100 b) == 0)%Q ↔
  take 100 a = take 100 b.
Proof.
  intros Ha Hb. split.
  - intros Hzero. apply l2sqr_zero in Hzero; [|by rewrite !simple_embed_length].
    apply list_eq. intros i.
    destruct (decide (i < 100)%nat) as [Hi|Hi].
    + rewrite !lookup_take_lt by done. apply same_component; [done|done|].
      pose proof (Forall2_lookup_lr _ _ _ i _ _ Hzero
                    (simple_embed_lookup 100 a i Hi) (simple_embed_lookup 100 b i Hi)).
      done.
    + rewrite !lookup_take_ge by lia. done.
  - intros Hsame.
    rewrite (simple_embed_truncates 100 a), (simple_embed_truncates 100 b), Hsame.
    apply l2sqr_self.
Qed.

Lemma zero_distance_same_start_witness :
  (IndexFlatL2.l2sqr (simple_embed 100 (lit "red sofa")) (simple_embed 100 (lit "red sofa"))
   == 0)%Q ↔
  take 100 (lit "red sofa") = take 100 (lit "red sofa").
Proof.
  apply (zero_distance_same_start (lit "red sofa") (lit "red sofa")).
  - repeat constructor; discriminate.
  - repeat constructor; discriminate.
Defined.

(** ** From the answer of the planner to the store *)




